(** * A shallow embedding of the workflow engine (src/app/engine.py)

    The engine executes directed workflow graphs: nodes carry a step
    callable, an optional routing callable and an optional loop-continuation
    callable; a run threads one mutable [WorkflowState] through the nodes.

    Python objects are modelled as immutable records that are passed along
    explicitly; where the source mutates an object that is shared (the graph
    held by the engine, the state held by the run registry) the model writes
    the mutated object back into the structure that holds the reference.
    Wall-clock values ([created_at], the [timestamp] of a log entry) are not
    modelled. *)

From Stdlib Require Import ZArith.
From stdpp Require Import gmap strings list fin_maps.

Local Open Scope string_scope.
Local Open Scope list_scope.
Local Set Warnings "-register-all,-clear-no-such-hyp".

(** ** Python values, exceptions and outcomes *)

(** The values a callable may return or store in the data mapping. *)
Inductive value :=
| VNone
| VBool (b : bool)
| VInt (n : Z)
| VStr (s : string)
| VList (l : list value)
| VDict (d : list (string * value)).

(** Python truthiness ([if v:]). *)
Definition truthy (v : value) : bool :=
  match v with
  | VNone => false
  | VBool b => b
  | VInt n => negb (n =? 0)%Z
  | VStr s => negb (String.eqb s "")
  | VList l => match l with [] => false | _ :: _ => true end
  | VDict d => match d with [] => false | _ :: _ => true end
  end.

(** Truthiness of an [Optional[str]]: [None] and the empty string are falsy. *)
Definition id_truthy (o : option string) : bool :=
  match o with
  | None => false
  | Some s => negb (String.eqb s "")
  end.

(** An exception object: its class and what [str(e)] returns.  Exceptions
    are instances of [Exception], the class the engine's handler catches
    (interpreter exits such as [KeyboardInterrupt] are not modelled). *)
Record exn := Exn { exn_class : string; exn_msg : string }.

Definition ValueError (msg : string) : exn := Exn "ValueError" msg.
Definition TypeError (msg : string) : exn := Exn "TypeError" msg.

(** A call either returns a value or raises. *)
Inductive outcome (A : Type) :=
| Return (a : A)
| Raise (e : exn).
Arguments Return {A} a.
Arguments Raise {A} e.

(** ** Dictionaries whose iteration order is observed

    [Graph.nodes] is a Python dict that the code iterates in insertion
    order; it is an association list.  Assigning to a key that is present
    keeps the key's position, assigning to a new key appends it. *)

Section OrderedDict.
Context {V : Type}.

Fixpoint dict_get (k : string) (d : list (string * V)) : option V :=
  match d with
  | [] => None
  | (k', v) :: d' => if String.eqb k k' then Some v else dict_get k d'
  end.

Fixpoint dict_set (k : string) (v : V) (d : list (string * V)) : list (string * V) :=
  match d with
  | [] => [(k, v)]
  | (k', v') :: d' =>
      if String.eqb k k' then (k, v) :: d' else (k', v') :: dict_set k v d'
  end.

Definition dict_keys (d : list (string * V)) : list string := map fst d.

Definition dict_mem (k : string) (d : list (string * V)) : bool :=
  match dict_get k d with Some _ => true | None => false end.
End OrderedDict.

(** ** WorkflowState *)

Module LogEntry.
Record t := mk { node_id : string; message : string; result : value }.
End LogEntry.

Module WorkflowState.
Record t := mk {
  data : gmap string value;
  current_node : option string;
  execution_log : list LogEntry.t;
  run_id : string;
  completed : bool;
  error : option string
}.

(** [WorkflowState(data=...)] with the run identity drawn by [uuid4]. *)
Definition new (d : gmap string value) (uuid : string) : t :=
  mk d None [] uuid false None.

Definition set_current_node (nid : string) (s : t) : t :=
  mk (data s) (Some nid) (execution_log s) (run_id s) (completed s) (error s).

Definition set_error (msg : string) (s : t) : t :=
  mk (data s) (current_node s) (execution_log s) (run_id s) (completed s) (Some msg).

Definition set_completed (s : t) : t :=
  mk (data s) (current_node s) (execution_log s) (run_id s) true (error s).

(** [update] with keyword arguments: later writes win. *)
Definition update (kwargs : list (string * value)) (s : t) : t :=
  mk (foldl (fun m kv => <[kv.1 := kv.2]> m) (data s) kwargs)
     (current_node s) (execution_log s) (run_id s) (completed s) (error s).

Definition get (key : string) (default : value) (s : t) : value :=
  match data s !! key with Some v => v | None => default end.

Definition log (nid msg : string) (res : value) (s : t) : t :=
  mk (data s) (current_node s) (execution_log s ++ [LogEntry.mk nid msg res])
     (run_id s) (completed s) (error s).
End WorkflowState.

(** A Python callable invoked with the state as its sole argument: it may
    mutate the state and then either returns a value or raises.  (A
    non-callable object stored in a callable slot behaves like a callable
    that raises [TypeError] at once and leaves the state alone.) *)
Definition callable : Type := WorkflowState.t -> outcome value * WorkflowState.t.

(** ** Nodes *)

Inductive NodeType := STANDARD | CONDITIONAL | LOOP.

Definition NodeType_eqb (a b : NodeType) : bool :=
  match a, b with
  | STANDARD, STANDARD | CONDITIONAL, CONDITIONAL | LOOP, LOOP => true
  | _, _ => false
  end.

(** What the [func] attribute of a node holds: a tool name still to be
    resolved, a callable, or some other object. *)
Inductive func_ref :=
| FString (name : string)
| FCallable (f : callable)
| FNotCallable.

Module Node.
Record t := mk {
  id : string;
  name : string;
  func : func_ref;
  node_type : NodeType;
  condition_func : option callable;
  loop_condition_func : option callable
}.

Definition set_func (f : func_ref) (n : t) : t :=
  mk (id n) (name n) f (node_type n) (condition_func n) (loop_condition_func n).
End Node.

(** ** ToolRegistry (src/app/tools.py) *)

Module ToolRegistry.
Record t := mk { tools : gmap string callable }.

Definition has_tool (self : t) (name : string) : bool :=
  match tools self !! name with Some _ => true | None => false end.

Definition get_tool (self : t) (name : string) : outcome callable :=
  match tools self !! name with
  | None => Raise (ValueError ("Tool '" +:+ name +:+ "' not found"))
  | Some f => Return f
  end.

Definition new : t := mk ∅.

(** [register]: [self.tools[name] = func]. *)
Definition register (self : t) (name : string) (func : callable) : t :=
  mk (<[name := func]> (tools self)).

(** [register_decorator(name)(func)]: the tool is registered under
    [name or func.__name__]; [dunder_name] is the [__name__] of the
    decorated function. *)
Definition register_decorator (self : t) (name : option string)
    (dunder_name : string) (func : callable) : t :=
  let tool_name := if id_truthy name then default "" name else dunder_name in
  register self tool_name func.
End ToolRegistry.

(** ** Graph *)

Module Graph.
Record t := mk {
  graph_id : string;
  nodes : list (string * Node.t);
  edges : gmap string string;
  tool_registry : option ToolRegistry.t
}.

Definition new (gid : string) : t := mk gid [] ∅ None.

Definition add_node (self : t) (node_id name : string) (func : func_ref)
    (node_type : NodeType) (condition_func loop_condition_func : option callable) : t :=
  mk (graph_id self)
     (dict_set node_id
        (Node.mk node_id name func node_type condition_func loop_condition_func)
        (nodes self))
     (edges self) (tool_registry self).

Definition add_edge (self : t) (from_node to_node : string) : outcome t :=
  if negb (dict_mem from_node (nodes self)) then
    Raise (ValueError ("Source node " +:+ from_node +:+ " not found"))
  else if negb (dict_mem to_node (nodes self)) then
    Raise (ValueError ("Target node " +:+ to_node +:+ " not found"))
  else
    Return (mk (graph_id self) (nodes self)
               (<[from_node := to_node]> (edges self)) (tool_registry self)).

(** The [for node in self.nodes.values()] loop of [resolve_functions]:
    nodes are visited in dict order and mutated in place, so the nodes
    before a failing one stay resolved.  The test
    [tool_registry and tool_registry.has_tool(node.func)] is the match on
    the optional registry followed by [has_tool]. *)
Fixpoint resolve_nodes (tool_registry : option ToolRegistry.t)
    (ns : list (string * Node.t)) : outcome unit * list (string * Node.t) :=
  match ns with
  | [] => (Return tt, [])
  | (k, node) :: rest =>
      match Node.func node with
      | FString fname =>
          match tool_registry with
          | Some r =>
              if ToolRegistry.has_tool r fname then
                match ToolRegistry.get_tool r fname with
                | Return f =>
                    let '(res, rest') := resolve_nodes tool_registry rest in
                    (res, (k, Node.set_func (FCallable f) node) :: rest')
                | Raise e => (Raise e, ns)
                end
              else
                (Raise (ValueError ("Tool '" +:+ fname +:+ "' not found in registry")), ns)
          | None =>
              (Raise (ValueError ("Tool '" +:+ fname +:+ "' not found in registry")), ns)
          end
      | FCallable _ =>
          let '(res, rest') := resolve_nodes tool_registry rest in
          (res, (k, node) :: rest')
      | FNotCallable =>
          (Raise (ValueError ("Node " +:+ Node.id node +:+ " has invalid function")), ns)
      end
  end.

Definition resolve_functions (self : t) (tool_registry : option ToolRegistry.t)
    : outcome unit * t :=
  let '(res, ns) := resolve_nodes tool_registry (nodes self) in
  (res, mk (graph_id self) ns (edges self) tool_registry).

Definition get_start_node (self : t) : option string :=
  match nodes self with
  | [] => None
  | _ :: _ =>
      let target_nodes : gset string := map_img (edges self) in
      let start_nodes :=
        filter (fun nid => nid ∉ target_nodes) (dict_keys (nodes self)) in
      match start_nodes with
      | nid :: _ => Some nid
      | [] => head (dict_keys (nodes self))
      end
  end.

Definition get_next_node (self : t) (current_node : string) (state : WorkflowState.t)
    : option string :=
  edges self !! current_node.
End Graph.

(** ** The engine's view of a run

    The statements of [run_graph] that touch the state are the primitive
    operations below.  Each one transforms the state and emits one event:
    the operation together with the state it leaves.  A computation cannot
    read the events, so they do not influence a run; they are what the
    statements about the order of the engine's actions talk about. *)

Inductive call_kind := StepCall | ConditionCall | LoopConditionCall.

Inductive op :=
| OpSetCurrentNode (nid : string)
| OpLog (e : LogEntry.t)
| OpCall (k : call_kind) (nid : string) (r : outcome value)
| OpSetError (msg : string)
| OpSetCompleted.

Definition event : Type := op * WorkflowState.t.

(** Computations of the engine: from the state to an outcome, the new
    state and the events emitted on the way. *)
Definition M (A : Type) : Type :=
  WorkflowState.t -> outcome A * WorkflowState.t * list event.

Definition ret {A} (a : A) : M A := fun s => (Return a, s, []).

Definition bind {A B} (m : M A) (k : A -> M B) : M B :=
  fun s =>
    match m s with
    | (Return a, s1, tr1) =>
        match k a s1 with
        | (r, s2, tr2) => (r, s2, tr1 ++ tr2)
        end
    | (Raise e, s1, tr1) => (Raise e, s1, tr1)
    end.

Definition raise {A} (e : exn) : M A := fun s => (Raise e, s, []).

(** [try: m except Exception as e: handler e] *)
Definition try_except {A} (m : M A) (handler : exn -> M A) : M A :=
  fun s =>
    match m s with
    | (Return a, s1, tr1) => (Return a, s1, tr1)
    | (Raise e, s1, tr1) =>
        match handler e s1 with
        | (r, s2, tr2) => (r, s2, tr1 ++ tr2)
        end
    end.

Notation "x <- m ;; k" := (bind m (fun x => k))
  (at level 100, m at next level, right associativity).
Notation "m ;;; k" := (bind m (fun _ => k))
  (at level 100, right associativity).

Definition mutate (o : op) (f : WorkflowState.t -> WorkflowState.t) : M unit :=
  fun s => (Return tt, f s, [(o, f s)]).

(** Reading the state object (no operation on it). *)
Definition get_state : M WorkflowState.t := fun s => (Return s, s, []).

(** [state.current_node = nid] *)
Definition set_current_node (nid : string) : M unit :=
  mutate (OpSetCurrentNode nid) (WorkflowState.set_current_node nid).

(** [state.error = msg] *)
Definition set_error (msg : string) : M unit :=
  mutate (OpSetError msg) (WorkflowState.set_error msg).

(** [state.completed = True] *)
Definition set_completed : M unit :=
  mutate OpSetCompleted WorkflowState.set_completed.

(** [state.log(nid, msg, res)] *)
Definition log (nid msg : string) (res : value) : M unit :=
  mutate (OpLog (LogEntry.mk nid msg res)) (WorkflowState.log nid msg res).

(** [f(state)] for one of the three callables of the node [nid]. *)
Definition call (k : call_kind) (nid : string) (f : callable) : M value :=
  fun s =>
    match f s with
    | (r, s1) => (r, s1, [(OpCall k nid r, s1)])
    end.

(** [node.func(state)]: calling an object that is not callable raises. *)
Definition call_func (nid : string) (f : func_ref) : M value :=
  match f with
  | FCallable c => call StepCall nid c
  | FString _ => raise (TypeError "'str' object is not callable")
  | FNotCallable => raise (TypeError "object is not callable")
  end.

(** [next_node in graph.nodes]: the keys are strings; a list or a dict
    cannot be hashed. *)
Definition in_nodes (v : value) (ns : list (string * Node.t)) : M bool :=
  match v with
  | VStr s => ret (dict_mem s ns)
  | VList _ => raise (TypeError "unhashable type: 'list'")
  | VDict _ => raise (TypeError "unhashable type: 'dict'")
  | VNone | VBool _ | VInt _ => ret false
  end.

Definition value_as_id (v : value) : option string :=
  match v with VStr s => Some s | _ => None end.

Definition max_iterations : nat := 1000.
Arguments max_iterations : simpl never.

(** How an iteration of the [while] loop ends: it falls through or
    [continue]s to the next test of the loop condition, or it [break]s. *)
Inductive flow := Next | Break.

(** ** Node definitions ([create_graph])

    A node definition is the dict a caller of [create_graph] supplies for a
    node; it is read with [get] only, so it is a record of its optional
    keys ([None]: the key is absent).  The display name and the type are
    strings, as both callers (src/app/api.py, src/app/workflows.py) supply
    them; the function slots hold any object. *)

Inductive pyobj :=
| PVal (v : value)
| PCallable (f : callable).

Definition pyobj_truthy (o : option pyobj) : bool :=
  match o with
  | None => false
  | Some (PVal v) => truthy v
  | Some (PCallable _) => true
  end.

Module NodeDef.
Record t := mk {
  name : option string;
  func : option pyobj;
  type : option string;
  condition_func : option pyobj;
  loop_condition_func : option pyobj
}.
End NodeDef.

(** The name of the class of a value, as Python's [TypeError] prints it. *)
Definition type_name (v : value) : string :=
  match v with
  | VNone => "NoneType"
  | VBool _ => "bool"
  | VInt _ => "int"
  | VStr _ => "str"
  | VList _ => "list"
  | VDict _ => "dict"
  end.

(** Calling a value that is not callable. *)
Definition not_callable (v : value) : callable :=
  fun s => (Raise (TypeError ("'" +:+ type_name v +:+ "' object is not callable")), s).

(** The object stored as [func] of a node. *)
Definition func_of (o : option pyobj) : func_ref :=
  match o with
  | Some (PVal (VStr s)) => FString s
  | Some (PCallable f) => FCallable f
  | Some (PVal _) | None => FNotCallable
  end.

(** The object stored as [condition_func] or [loop_condition_func].  The
    engine only tests the slot for truth and calls it: a falsy object is
    an empty slot, a truthy object that is not callable raises when
    called. *)
Definition slot_of (o : option pyobj) : option callable :=
  match o with
  | None => None
  | Some (PCallable f) => Some f
  | Some (PVal v) => if truthy v then Some (not_callable v) else None
  end.

(** [NodeType(s)]: the member with the value [s].  (The message shows
    [repr(s)], written here for a string without characters to escape.) *)
Definition NodeType_of_string (s : string) : outcome NodeType :=
  if String.eqb s "standard" then Return STANDARD
  else if String.eqb s "conditional" then Return CONDITIONAL
  else if String.eqb s "loop" then Return LOOP
  else Raise (ValueError ("'" +:+ s +:+ "' is not a valid NodeType")).

Module WorkflowEngine.
Record t := mk {
  graphs : gmap string Graph.t;
  runs : gmap string WorkflowState.t
}.

Definition new : t := mk ∅ ∅.

(** The loop "Create nodes" of [create_graph], over the items of the
    [nodes] dict in their order. *)
Fixpoint create_nodes (graph : Graph.t) (nodes : list (string * NodeDef.t))
    : outcome Graph.t :=
  match nodes with
  | [] => Return graph
  | (node_id, node_def) :: rest =>
      let func_name := NodeDef.func node_def in
      if negb (pyobj_truthy func_name) then
        Raise (ValueError ("Node " +:+ node_id +:+ " must have a 'func' field"))
      else
        match NodeType_of_string (default "standard" (NodeDef.type node_def)) with
        | Raise e => Raise e
        | Return node_type =>
            create_nodes
              (Graph.add_node graph node_id
                 (default node_id (NodeDef.name node_def))
                 (func_of func_name) node_type
                 (slot_of (NodeDef.condition_func node_def))
                 (slot_of (NodeDef.loop_condition_func node_def)))
              rest
        end
  end.

(** The loop "Add edges" of [create_graph], over the items of the [edges]
    dict in their order. *)
Fixpoint create_edges (graph : Graph.t) (edges : list (string * string))
    : outcome Graph.t :=
  match edges with
  | [] => Return graph
  | (from_node, to_node) :: rest =>
      match Graph.add_edge graph from_node to_node with
      | Raise e => Raise e
      | Return graph' => create_edges graph' rest
      end
  end.

(** [create_graph]: the graph is built in a local object and stored in
    [self.graphs] only when all nodes and edges were accepted. *)
Definition create_graph (self : t) (graph_id : string)
    (nodes : list (string * NodeDef.t)) (edges : list (string * string))
    : outcome string * t :=
  match create_nodes (Graph.new graph_id) nodes with
  | Raise e => (Raise e, self)
  | Return graph =>
      match create_edges graph edges with
      | Raise e => (Raise e, self)
      | Return graph' =>
          (Return graph_id, mk (<[graph_id := graph']> (graphs self)) (runs self))
      end
  end.

(** The body of the [while] loop of [run_graph] after [iteration += 1],
    for a truthy [current_node_id].  It yields how the iteration ends,
    the new [current_node_id] and the new [visited_nodes]. *)
Definition loop_body (graph : Graph.t) (current_node_id : string)
    (visited_nodes : gset string) : M (flow * option string * gset string) :=
  match dict_get current_node_id (Graph.nodes graph) with
  | None =>
      set_error ("Node " +:+ current_node_id +:+ " not found in graph") ;;;
      ret (Break, Some current_node_id, visited_nodes)
  | Some node =>
      set_current_node current_node_id ;;;
      log (Node.id node) ("Executing node: " +:+ Node.name node) VNone ;;;
      result <- call_func (Node.id node) (Node.func node) ;;
      (if truthy result then log (Node.id node) "Node completed" result else ret tt) ;;;
      match Node.node_type node, Node.loop_condition_func node with
      | LOOP, Some loop_condition_func =>
          should_continue <- call LoopConditionCall (Node.id node) loop_condition_func ;;
          if truthy should_continue then
            log (Node.id node) "Loop condition met, continuing loop" VNone ;;;
            s <- get_state ;;
            ret (Next, Graph.get_next_node graph current_node_id s, visited_nodes)
          else
            log (Node.id node) "Loop condition not met, exiting loop" VNone ;;;
            ret (Next, None, visited_nodes)
      | _, _ =>
          next <-
            match Node.node_type node, Node.condition_func node with
            | CONDITIONAL, Some condition_func =>
                next_node <- call ConditionCall (Node.id node) condition_func ;;
                present <- (if truthy next_node
                            then in_nodes next_node (Graph.nodes graph)
                            else ret false) ;;
                if present then ret (value_as_id next_node)
                else
                  s <- get_state ;;
                  ret (Graph.get_next_node graph current_node_id s)
            | _, _ =>
                s <- get_state ;;
                ret (Graph.get_next_node graph current_node_id s)
            end ;;
          if negb (id_truthy next) then
            log "engine" "Workflow completed" VNone ;;;
            set_completed ;;;
            ret (Break, next, visited_nodes)
          else
            let current := default "" next in
            let visited :=
              if bool_decide (current ∈ visited_nodes)
                 && negb (NodeType_eqb (Node.node_type node) LOOP)
              then (∅ : gset string) else visited_nodes in
            ret (Next, next, {[current]} ∪ visited)
      end
  end.

(** [while current_node_id and iteration < max_iterations: ...].  The
    loop test is written as in the source; [fuel] only makes the
    recursion structural and is not exhausted when
    [max_iterations <= fuel + iteration].  The result is the value of
    [iteration] when the loop is left. *)
Fixpoint while_loop (fuel : nat) (graph : Graph.t) (current_node_id : option string)
    (visited_nodes : gset string) (iteration : nat) : M nat :=
  if id_truthy current_node_id && (iteration <? max_iterations)%nat then
    match fuel with
    | O => ret iteration
    | S fuel' =>
        r <- loop_body graph (default "" current_node_id) visited_nodes ;;
        match r with
        | (Break, _, _) => ret (S iteration)
        | (Next, next, visited) => while_loop fuel' graph next visited (S iteration)
        end
    end
  else ret iteration.

(** The body of the [try] block: the loop and the test of the cap. *)
Definition try_body (graph : Graph.t) (current_node_id : option string) : M unit :=
  iteration <- while_loop max_iterations graph current_node_id ∅ 0 ;;
  if (max_iterations <=? iteration)%nat then
    set_error "Maximum iterations reached" ;;;
    set_completed
  else ret tt.

(** The [try] block with its [except Exception] handler. *)
Definition try_block (graph : Graph.t) (current_node_id : option string) : M unit :=
  try_except
    (try_body graph current_node_id)
    (fun e =>
       set_error (exn_msg e) ;;;
       set_completed ;;;
       log "engine" ("Error: " +:+ exn_msg e) VNone).

(** [run_graph] from "Determine start node" on. *)
Definition execute (graph : Graph.t) (start_node : option string) : M unit :=
  let current_node_id :=
    if id_truthy start_node then start_node else Graph.get_start_node graph in
  if negb (id_truthy current_node_id) then
    set_error "No start node found" ;;;
    set_completed
  else
    log "engine" ("Starting workflow from node: " +:+ default "" current_node_id) VNone ;;;
    try_block graph current_node_id.

(** [run_graph]; [uuid] is the identity [uuid4] hands to the new state.
    The result is the call's outcome (the returned state with the events
    of the run, or the exception that leaves [run_graph]) and the engine
    after the call: the graph object is shared with [self.graphs] and the
    state object with [self.runs]. *)
Definition run_graph_traced (self : t) (graph_id : string)
    (initial_state : gmap string value) (start_node : option string)
    (tool_registry : option ToolRegistry.t) (uuid : string)
    : outcome (WorkflowState.t * list event) * t :=
  match graphs self !! graph_id with
  | None => (Raise (ValueError ("Graph " +:+ graph_id +:+ " not found")), self)
  | Some graph =>
      let state := WorkflowState.new initial_state uuid in
      let runs1 := <[uuid := state]> (runs self) in
      let '(res, graph1) := Graph.resolve_functions graph tool_registry in
      let graphs1 := <[graph_id := graph1]> (graphs self) in
      match res with
      | Raise e => (Raise e, mk graphs1 runs1)
      | Return _ =>
          match execute graph1 start_node state with
          | (Return _, s, tr) => (Return (s, tr), mk graphs1 (<[uuid := s]> runs1))
          | (Raise e, s, tr) => (Raise e, mk graphs1 (<[uuid := s]> runs1))
          end
      end
  end.

Definition run_graph (self : t) (graph_id : string)
    (initial_state : gmap string value) (start_node : option string)
    (tool_registry : option ToolRegistry.t) (uuid : string)
    : outcome WorkflowState.t * t :=
  match run_graph_traced self graph_id initial_state start_node tool_registry uuid with
  | (Return (s, _), self') => (Return s, self')
  | (Raise e, self') => (Raise e, self')
  end.

Definition get_run_state (self : t) (run_id : string) : option WorkflowState.t :=
  runs self !! run_id.
End WorkflowEngine.

(** ** Example graphs and callables *)

Module Examples.
(** A step that does nothing and returns [None]. *)
Definition noop : callable := fun s => (Return VNone, s).

(** A step that raises. *)
Definition boom : callable := fun s => (Raise (Exn "RuntimeError" "boom"), s).

(** A loop-continuation callable that always answers [False]. *)
Definition never : callable := fun s => (Return (VBool false), s).

(** A routing callable that always names the node [nid]. *)
Definition goto (nid : string) : callable := fun s => (Return (VStr nid), s).

Definition registry : ToolRegistry.t := ToolRegistry.mk {[ "noop" := noop ]}.

Definition add_edge_or_same (g : Graph.t) (a b : string) : Graph.t :=
  match Graph.add_edge g a b with Return g' => g' | Raise _ => g end.

(** One loop node whose continuation callable answers [False]. *)
Definition loop_graph : Graph.t :=
  Graph.add_node (Graph.new "loop") "L" "Loop" (FString "noop") LOOP None (Some never).

(** Two standard nodes on a cycle of default edges. *)
Definition cycle_graph : Graph.t :=
  let g := Graph.add_node (Graph.new "cycle") "a" "A" (FString "noop") STANDARD None None in
  let g := Graph.add_node g "b" "B" (FCallable noop) STANDARD None None in
  add_edge_or_same (add_edge_or_same g "a" "b") "b" "a".

(** The two-node cycle with its step references resolved. *)
Definition cycle_graph_resolved : Graph.t :=
  Graph.mk "cycle"
    [ ("a", Node.mk "a" "A" (FCallable noop) STANDARD None None);
      ("b", Node.mk "b" "B" (FCallable noop) STANDARD None None) ]
    (Graph.edges cycle_graph) (Some registry).

(** A single node whose step is not in the registry. *)
Definition missing_graph : Graph.t :=
  Graph.add_node (Graph.new "missing") "a" "A" (FString "absent") STANDARD None None.

(** A single node whose step raises. *)
Definition boom_graph : Graph.t :=
  Graph.add_node (Graph.new "boom") "a" "A" (FCallable boom) STANDARD None None.

(** One standard node and no edge: the run ends after one step. *)
Definition single_graph : Graph.t :=
  Graph.add_node (Graph.new "single") "a" "A" (FCallable noop) STANDARD None None.

(** A conditional node [c] that routes to [t]; its default edge leads to [d]. *)
Definition cond_graph (target : string) : Graph.t :=
  let g := Graph.add_node (Graph.new "cond") "c" "C" (FCallable noop) CONDITIONAL
             (Some (goto target)) None in
  let g := Graph.add_node g "d" "D" (FCallable noop) STANDARD None None in
  let g := Graph.add_node g "t" "T" (FCallable noop) STANDARD None None in
  add_edge_or_same g "c" "d".

(** A routing callable that counts its calls in the data mapping: it names
    the node [c] on its first 999 calls and returns [None] afterwards. *)
Definition count_to_cap : callable := fun s =>
  match WorkflowState.get "n" (VInt 0) s with
  | VInt k =>
      if (k <? 999)%Z
      then (Return (VStr "c"), WorkflowState.update [("n", VInt (k + 1))] s)
      else (Return VNone, s)
  | _ => (Return VNone, s)
  end.

(** One conditional node without default edge that routes to itself 999
    times: the run comes to its natural end in the 1000th iteration. *)
Definition countdown_graph : Graph.t :=
  Graph.add_node (Graph.new "countdown") "c" "C" (FCallable noop) CONDITIONAL
    (Some count_to_cap) None.

(** A loop node that has a routing callable but no continuation callable,
    with a default edge back to itself. *)
Definition unrouted_loop_graph : Graph.t :=
  add_edge_or_same
    (Graph.add_node (Graph.new "unrouted") "L" "Loop" (FCallable noop) LOOP
       (Some (goto "x")) None)
    "L" "L".

(** A loop node without default edge whose continuation callable returns
    a truthy value. *)
Definition loop_again_graph : Graph.t :=
  Graph.add_node (Graph.new "again") "L" "Loop" (FCallable noop) LOOP None
    (Some (goto "again")).

(** The run of [boom_graph] up to the call of the raising step. *)
Definition boom_exn : exn := Exn "RuntimeError" "boom".

Definition boom_log : list LogEntry.t :=
  [ LogEntry.mk "engine" "Starting workflow from node: a" VNone;
    LogEntry.mk "a" "Executing node: A" VNone ].

Definition boom_state_at_call : WorkflowState.t :=
  WorkflowState.mk ∅ (Some "a") boom_log "run-1" false None.

Definition boom_events_before_call : list event :=
  [ (OpLog (LogEntry.mk "engine" "Starting workflow from node: a" VNone),
     WorkflowState.mk ∅ None (take 1 boom_log) "run-1" false None);
    (OpSetCurrentNode "a",
     WorkflowState.mk ∅ (Some "a") (take 1 boom_log) "run-1" false None);
    (OpLog (LogEntry.mk "a" "Executing node: A" VNone), boom_state_at_call) ].

Definition engine : WorkflowEngine.t :=
  WorkflowEngine.mk
    (<["loop" := loop_graph]> (<["cycle" := cycle_graph]>
      (<["missing" := missing_graph]> (<["boom" := boom_graph]>
        (<["single" := single_graph]> (<["countdown" := countdown_graph]> ∅))))))
    ∅.

(** Two standard nodes on a cycle of default edges and a third standard
    node [c] off the cycle: [c] is the only node without incoming edge and
    has no default edge. *)
Definition cycle_aside_graph : Graph.t :=
  let g := Graph.add_node (Graph.new "aside") "a" "A" (FCallable noop) STANDARD None None in
  let g := Graph.add_node g "b" "B" (FCallable noop) STANDARD None None in
  let g := Graph.add_node g "c" "C" (FCallable noop) STANDARD None None in
  add_edge_or_same (add_edge_or_same g "a" "b") "b" "a".

(** Two standard nodes on a cycle of default edges; the step of [a] raises. *)
Definition boom_cycle_graph : Graph.t :=
  let g := Graph.add_node (Graph.new "boomcycle") "a" "A" (FCallable boom) STANDARD None None in
  let g := Graph.add_node g "b" "B" (FCallable noop) STANDARD None None in
  add_edge_or_same (add_edge_or_same g "a" "b") "b" "a".

(** Two standard nodes on a cycle of default edges; the second node has the
    empty string as its identity. *)
Definition empty_id_cycle_graph : Graph.t :=
  let g := Graph.add_node (Graph.new "emptyid") "a" "A" (FCallable noop) STANDARD None None in
  let g := Graph.add_node g "" "E" (FCallable noop) STANDARD None None in
  add_edge_or_same (add_edge_or_same g "a" "") "" "a".

(** A conditional node [c] that routes to the node whose identity is the
    empty string; its default edge leads to [d]. *)
Definition cond_empty_graph : Graph.t :=
  let g := Graph.add_node (Graph.new "condempty") "c" "C" (FCallable noop) CONDITIONAL
             (Some (goto "")) None in
  let g := Graph.add_node g "d" "D" (FCallable noop) STANDARD None None in
  let g := Graph.add_node g "" "E" (FCallable noop) STANDARD None None in
  add_edge_or_same g "c" "d".

Definition cycles_engine : WorkflowEngine.t :=
  WorkflowEngine.mk
    (<["aside" := cycle_aside_graph]> (<["boomcycle" := boom_cycle_graph]>
      (<["emptyid" := empty_id_cycle_graph]> ∅)))
    ∅.
End Examples.

(** ** The code review workflow (src/app/workflows.py)

    [create_code_review_workflow] declares five nodes and a cycle of edges
    through them.  The loop-continuation callable [should_continue_loop]
    compares numbers of the data mapping that the tools compute in floating
    point; it is a parameter here, and so are the tools, which the registry
    supplies by name. *)

Module Workflows.
(** The step of the node [loop_check]:
    [lambda state: state.log("loop_check", ...)], which returns [None]. *)
Definition loop_check_step : callable := fun s =>
  (Return VNone,
   WorkflowState.log "loop_check" "Checking if quality threshold is met" VNone s).

Definition tool_node (name tool : string) : NodeDef.t :=
  NodeDef.mk (Some name) (Some (PVal (VStr tool))) (Some "standard") None None.

Definition nodes (should_continue_loop : callable) : list (string * NodeDef.t) :=
  [ ("extract", tool_node "Extract Functions" "extract_functions");
    ("complexity", tool_node "Check Complexity" "check_complexity");
    ("detect", tool_node "Detect Issues" "detect_issues");
    ("suggest", tool_node "Suggest Improvements" "suggest_improvements");
    ("loop_check",
     NodeDef.mk (Some "Check Quality Loop") (Some (PCallable loop_check_step))
       (Some "loop") None (Some (PCallable should_continue_loop))) ].

Definition edges : list (string * string) :=
  [ ("extract", "complexity");
    ("complexity", "detect");
    ("detect", "suggest");
    ("suggest", "loop_check");
    ("loop_check", "extract") ].

End Workflows.

(** * Vocabulary of the properties

    The predicates in which the properties below are stated: facts about
    graphs, the states seen by the callables of a node, and shapes of event
    sequences. *)

(** A node has an incoming default edge when it is the target of some edge. *)
Definition has_incoming (g : Graph.t) (nid : string) : Prop :=
  ∃ src, Graph.edges g !! src = Some nid.

(** The step reference of the node is a tool name that the registry lacks
    (or there is no registry). *)
Definition names_missing_tool (reg : option ToolRegistry.t) (node : Node.t) : Prop :=
  ∃ fname, Node.func node = FString fname ∧
           ∀ r, reg = Some r → ToolRegistry.has_tool r fname = false.

(** The state the step callable of [node] is invoked with. *)
Definition state_at_step (node : Node.t) (current_node_id : string)
    (s : WorkflowState.t) : WorkflowState.t :=
  WorkflowState.log (Node.id node) ("Executing node: " +:+ Node.name node) VNone
    (WorkflowState.set_current_node current_node_id s).

(** The state after the step callable returned [result], leaving [s1]:
    the state the routing and loop-continuation callables are invoked with. *)
Definition state_after_step (node : Node.t) (result : value)
    (s1 : WorkflowState.t) : WorkflowState.t :=
  if truthy result then WorkflowState.log (Node.id node) "Node completed" result s1 else s1.

(** The next node an iteration hands to the loop test. *)
Definition next_of {S E : Type} (r : outcome (flow * option string * gset string) * S * E)
    : option (option string) :=
  match r with
  | (Return (_, next, _), _, _) => Some next
  | (Raise _, _, _) => None
  end.

(** The events in which a callable raised. *)
Definition raising (o : op) : Prop :=
  match o with
  | OpCall _ _ (Raise _) => True
  | _ => False
  end.

Definition quiet (tr : list event) : Prop := Forall (fun ev => ¬ raising ev.1) tr.

(** A computation is [guarded] when a callable that raises ends it: the
    raising call is the last event, and the computation raises the same
    exception in the state the callable left. *)
Definition raise_is_last {A} (x : outcome A * WorkflowState.t * list event) : Prop :=
  match x with
  | (Return _, _, tr) => quiet tr
  | (Raise e, s', tr) =>
      quiet tr ∨ ∃ tr' k nid, tr = tr' ++ [(OpCall k nid (Raise e), s')] ∧ quiet tr'
  end.

Definition guarded {A} (m : M A) : Prop := ∀ s, raise_is_last (m s).

(** What the [except] handler makes of the state [s] in which [e] was raised,
    and the events it emits. *)
Definition handled (e : exn) (s : WorkflowState.t) : WorkflowState.t :=
  WorkflowState.log "engine" ("Error: " +:+ exn_msg e) VNone
    (WorkflowState.set_completed (WorkflowState.set_error (exn_msg e) s)).

Definition handler_events (e : exn) (s : WorkflowState.t) : list event :=
  [ (OpSetError (exn_msg e), WorkflowState.set_error (exn_msg e) s);
    (OpSetCompleted, WorkflowState.set_completed (WorkflowState.set_error (exn_msg e) s));
    (OpLog (LogEntry.mk "engine" ("Error: " +:+ exn_msg e) VNone), handled e s) ].

(** The events in which the engine sets the completion flag. *)
Definition completing (ev : event) : Prop := ev.1 = OpSetCompleted.

(** No event of the sequence sets the completion flag. *)
Definition open_trace (tr : list event) : Prop := Forall (fun ev => ¬ completing ev) tr.

Definition never_completes {A} (m : M A) : Prop := ∀ s, open_trace (m s).2.

(** The completion flag is set at most once and as the last action, and
    then the computation returns a value satisfying [stop]. *)
Definition completes_last {A} (stop : A → Prop)
    (x : outcome A * WorkflowState.t * list event) : Prop :=
  match x with
  | (r, s', tr) =>
      open_trace tr ∨
      ∃ tr' a, tr = tr' ++ [(OpSetCompleted, s')] ∧ open_trace tr' ∧
               r = Return a ∧ stop a ∧ WorkflowState.completed s' = true
  end.

Definition completes {A} (m : M A) (stop : A → Prop) : Prop :=
  ∀ s, completes_last stop (m s).

(** The iteration ended with [break]. *)
Definition breaks (r : flow * option string * gset string) : Prop := r.1.1 = Break.

(** The state [s] agrees with the state [s1] in which the flag was set,
    except that the error field may differ and that the log may have gained
    the final entry of the handler. *)
Definition unchanged_since (s1 s : WorkflowState.t) : Prop :=
  WorkflowState.data s = WorkflowState.data s1 ∧
  WorkflowState.current_node s = WorkflowState.current_node s1 ∧
  WorkflowState.run_id s = WorkflowState.run_id s1 ∧
  WorkflowState.completed s = true ∧
  (WorkflowState.execution_log s = WorkflowState.execution_log s1 ∨
   ∃ msg, WorkflowState.execution_log s
          = WorkflowState.execution_log s1 ++ [LogEntry.mk "engine" ("Error: " +:+ msg) VNone]).

(** The operations that neither invoke a callable nor move the
    current-node pointer. *)
Definition bookkeeping (o : op) : Prop :=
  match o with
  | OpCall _ _ _ | OpSetCurrentNode _ => False
  | OpLog _ | OpSetError _ | OpSetCompleted => True
  end.

Definition settled (s1 : WorkflowState.t) (ev : event) : Prop :=
  bookkeeping ev.1 ∧ unchanged_since s1 ev.2.

(** Every event that sets the flag is followed by settled events only, and
    the state [final] is unchanged since. *)
Fixpoint settled_after (final : WorkflowState.t) (tr : list event) : Prop :=
  match tr with
  | [] => True
  | ev :: rest =>
      (completing ev → Forall (settled ev.2) rest ∧ unchanged_since ev.2 final) ∧
      settled_after final rest
  end.

(** The number of step callables invoked: the number of iterations that
    reached the execution of a node. *)
Fixpoint count_step_calls (tr : list event) : nat :=
  match tr with
  | [] => 0
  | (OpCall StepCall _ _, _) :: rest => S (count_step_calls rest)
  | _ :: rest => count_step_calls rest
  end.

(** A step callable that never raises. *)
Definition total_step (f : callable) : Prop := ∀ s, ∃ v s', f s = (Return v, s').

(** The default edge of the node [a] leads to [b]. *)
Definition default_edge (g : Graph.t) (a b : string) : Prop :=
  Graph.edges g !! a = Some b.

(** A node at which a run can neither end nor fail: a standard node of the
    graph with a non-empty identity, whose step does not raise and which has
    a default edge. *)
Definition keeps_running (g : Graph.t) (nid : string) : Prop :=
  nid ≠ "" ∧
  ∃ node f next,
    dict_get nid (Graph.nodes g) = Some node ∧
    Node.node_type node = STANDARD ∧
    Node.func node = FCallable f ∧ total_step f ∧
    Graph.edges g !! nid = Some next.

(** A run entered at [entry] is caught on the default edges: every node
    that can be reached from [entry] along default edges keeps the run
    going.  The nodes of a finite graph being finitely many, such a run
    goes round a cycle of default edges. *)
Definition caught_in_cycle (g : Graph.t) (entry : string) : Prop :=
  ∀ nid, rtc (default_edge g) entry nid → keeps_running g nid.

(** Every default edge joins two declared nodes. *)
Definition edges_valid (g : Graph.t) : Prop :=
  ∀ a b, Graph.edges g !! a = Some b →
         dict_mem a (Graph.nodes g) = true ∧ dict_mem b (Graph.nodes g) = true.

(** A node definition that [create_graph] accepts: a truthy [func] and a
    type that names a member of [NodeType]. *)
Definition valid_def (d : NodeDef.t) : Prop :=
  pyobj_truthy (NodeDef.func d) = true ∧
  ∃ ty, NodeType_of_string (default "standard" (NodeDef.type d)) = Return ty.

(** The node [create_graph] builds from a definition. *)
Definition node_of_def (node_id : string) (d : NodeDef.t) (ty : NodeType) : Node.t :=
  Node.mk node_id (default node_id (NodeDef.name d)) (func_of (NodeDef.func d)) ty
    (slot_of (NodeDef.condition_func d)) (slot_of (NodeDef.loop_condition_func d)).

(** Both ends of an edge are among the declared identities. *)
Definition edge_declared (ids : list string) (e : string * string) : Prop :=
  e.1 ∈ ids ∧ e.2 ∈ ids.

(** Every node has a default successor with a non-empty identity. *)
Definition all_have_successor (g : Graph.t) : Prop :=
  ∀ nid node, dict_get nid (Graph.nodes g) = Some node →
              ∃ next, Graph.edges g !! nid = Some next ∧ next ≠ "".

(** The node a run is entered at: [start_node or graph.get_start_node()]. *)
Definition entry_node (g : Graph.t) (start_node : option string) : option string :=
  if id_truthy start_node then start_node else Graph.get_start_node g.

(** The first two events of a run that is entered at the node [nid]: the
    log entry that names the start node, and the assignment of
    [current_node], which the loop makes only after it has found [nid] among
    the nodes of the graph (a start node that is not found makes the loop
    set the error "Node ... not found in graph" instead). *)
Definition started_at (nid : string) (s0 : WorkflowState.t) : list event :=
  let s1 := WorkflowState.log "engine" ("Starting workflow from node: " +:+ nid) VNone s0 in
  [ (OpLog (LogEntry.mk "engine" ("Starting workflow from node: " +:+ nid) VNone), s1);
    (OpSetCurrentNode nid, WorkflowState.set_current_node nid s1) ].

(** The engine sets the error field. *)
Definition sets_error (o : op) : Prop :=
  match o with
  | OpSetError _ => True
  | _ => False
  end.

(** A routing or loop-continuation callable is invoked. *)
Definition routing_call (o : op) : Prop :=
  match o with
  | OpCall ConditionCall _ _ | OpCall LoopConditionCall _ _ => True
  | _ => False
  end.

(** The node has the callable that its type asks for: the engine routes
    through it. *)
Definition routed (node : Node.t) : Prop :=
  (Node.node_type node = LOOP ∧ is_Some (Node.loop_condition_func node)) ∨
  (Node.node_type node = CONDITIONAL ∧ is_Some (Node.condition_func node)).

(** The nodes entered, in order. *)
Fixpoint entered (tr : list event) : list string :=
  match tr with
  | [] => []
  | (OpSetCurrentNode nid, _) :: rest => nid :: entered rest
  | _ :: rest => entered rest
  end.

(** The step reference of the node can be resolved: it is a callable
    already, or the name of a registered tool. *)
Definition resolvable (reg : option ToolRegistry.t) (node : Node.t) : Prop :=
  match Node.func node with
  | FCallable _ => True
  | FString fname => ∃ r, reg = Some r ∧ ToolRegistry.has_tool r fname = true
  | FNotCallable => False
  end.

(** The node after resolution: a tool name is replaced by the registered
    callable, everything else is kept. *)
Definition resolve_node (reg : option ToolRegistry.t) (node : Node.t) : Node.t :=
  match Node.func node, reg with
  | FString fname, Some r =>
      match ToolRegistry.tools r !! fname with
      | Some f => Node.set_func (FCallable f) node
      | None => node
      end
  | _, _ => node
  end.

(** The error of the resolution at a node that cannot be resolved. *)
Definition resolve_error (node : Node.t) : exn :=
  match Node.func node with
  | FString fname => ValueError ("Tool '" +:+ fname +:+ "' not found in registry")
  | _ => ValueError ("Node " +:+ Node.id node +:+ " has invalid function")
  end.

(** The log operation of a natural end of a run. *)
Definition logs_completion (o : op) : Prop :=
  o = OpLog (LogEntry.mk "engine" "Workflow completed" VNone).

(** The event belongs to no natural end: it neither logs "Workflow
    completed" nor sets the completion flag. *)
Definition no_natural_end (ev : event) : Prop :=
  ev.1 ≠ OpSetCompleted ∧ ¬ logs_completion ev.1.

(** The event does not log "Workflow completed", and if it sets the
    completion flag the state carries an error. *)
Definition completes_with_error (ev : event) : Prop :=
  ¬ logs_completion ev.1 ∧
  (ev.1 = OpSetCompleted → WorkflowState.error ev.2 ≠ None).

(** A node that the engine does not route and whose step does not raise. *)
Definition plain_node (g : Graph.t) (nid : string) : Prop :=
  nid ≠ "" ∧
  ∃ node f, dict_get nid (Graph.nodes g) = Some node ∧ ¬ routed node ∧
            Node.func node = FCallable f ∧ total_step f.

(** The path follows the default edges through plain nodes, from its first
    node to a node without default successor. *)
Fixpoint chain (g : Graph.t) (path : list string) : Prop :=
  match path with
  | [] => False
  | nid :: rest =>
      plain_node g nid ∧
      match rest with
      | [] => Graph.edges g !! nid = None
      | next :: _ => Graph.edges g !! nid = Some next ∧ chain g rest
      end
  end.

(** * Properties *)

(** ** Ordered dictionaries *)

Section OrderedDictFacts.
Context {V : Type}.
Implicit Types (d : list (string * V)) (k : string) (v : V).

Lemma dict_get_set_eq k v d : dict_get k (dict_set k v d) = Some v.
Proof.
  induction d as [|[k' v'] d IH]; simpl.
  - by rewrite String.eqb_refl.
  - destruct (String.eqb k k') eqn:E; simpl.
    + by rewrite String.eqb_refl.
    + by rewrite E.
Qed.

Lemma dict_get_set_ne k j v d : j ≠ k → dict_get j (dict_set k v d) = dict_get j d.
Proof.
  intros Hne. induction d as [|[k' v'] d IH]; simpl.
  - by apply String.eqb_neq in Hne as ->.
  - destruct (String.eqb k k') eqn:E; simpl.
    + apply String.eqb_eq in E as <-.
      by apply String.eqb_neq in Hne as ->.
    + by rewrite IH.
Qed.

Lemma dict_keys_set_present k v d :
  dict_mem k d = true → dict_keys (dict_set k v d) = dict_keys d.
Proof.
  unfold dict_mem, dict_keys. induction d as [|[k' v'] d IH]; simpl; [done|].
  destruct (String.eqb k k') eqn:E; simpl.
  - apply String.eqb_eq in E as <-. done.
  - intros H. by rewrite IH.
Qed.

Lemma dict_mem_keys k d : dict_mem k d = true ↔ k ∈ dict_keys d.
Proof.
  unfold dict_mem, dict_keys. induction d as [|[k' v'] d IH]; simpl.
  - split; [done | by intros ?%elem_of_nil].
  - destruct (String.eqb k k') eqn:E.
    + apply String.eqb_eq in E as <-. split; [intros _; left | done].
    + apply String.eqb_neq in E. rewrite IH. split.
      * by right.
      * intros [?|?]%elem_of_cons; [congruence | done].
Qed.
End OrderedDictFacts.

(** ** Graph construction: [add_node] *)

(** C4 (counterexample).  Adding a node under an identity that is already
    present does not leave the existing node unchanged: [add_node] has no
    failure path, and the node stored under the identity afterwards is the
    new one. *)
Lemma add_node_duplicate_overwrites :
  let g := Examples.single_graph in
  let g' := Graph.add_node g "a" "Other" FNotCallable LOOP None None in
  dict_mem "a" (Graph.nodes g) = true ∧
  Node.name <$> dict_get "a" (Graph.nodes g) = Some "A" ∧
  Node.name <$> dict_get "a" (Graph.nodes g') = Some "Other" ∧
  dict_get "a" (Graph.nodes g') ≠ dict_get "a" (Graph.nodes g).
Proof. repeat split; try reflexivity. discriminate. Qed.

(** C4 (amended).  For every graph and every node identity already present
    in it, [add_node] with that identity does not fail: it replaces the node
    stored under the identity by the new definition, keeps the declaration
    order, and leaves the other nodes and the edges as they were. *)
Theorem add_node_existing_replaces (g : Graph.t) (node_id name : string)
    (func : func_ref) (node_type : NodeType) (cf lf : option callable) :
  dict_mem node_id (Graph.nodes g) = true →
  let g' := Graph.add_node g node_id name func node_type cf lf in
  dict_get node_id (Graph.nodes g') = Some (Node.mk node_id name func node_type cf lf) ∧
  dict_keys (Graph.nodes g') = dict_keys (Graph.nodes g) ∧
  (∀ j, j ≠ node_id → dict_get j (Graph.nodes g') = dict_get j (Graph.nodes g)) ∧
  Graph.edges g' = Graph.edges g.
Proof.
  intros Hmem g'. subst g'. unfold Graph.add_node. simpl. split_and!.
  - apply dict_get_set_eq.
  - by apply dict_keys_set_present.
  - intros j Hj. by apply dict_get_set_ne.
  - reflexivity.
Qed.

Lemma add_node_existing_replaces_witness :
  dict_get "a"
    (Graph.nodes (Graph.add_node Examples.single_graph "a" "Other" FNotCallable LOOP None None))
  = Some (Node.mk "a" "Other" FNotCallable LOOP None None).
Proof.
  apply (add_node_existing_replaces Examples.single_graph "a" "Other" FNotCallable LOOP None None).
  reflexivity.
Defined.

(** ** Start-node inference: [get_start_node] *)

Lemma target_nodes_spec (g : Graph.t) (nid : string) :
  nid ∈ (map_img (Graph.edges g) : gset string) ↔ has_incoming g nid.
Proof. apply elem_of_map_img. Qed.

Lemma filter_all_rejected {A} (P : A → Prop) `{!∀ x, Decision (P x)} (l : list A) :
  Forall (fun x => ¬ P x) l → filter P l = [].
Proof.
  induction 1 as [|x l Hx _ IH]; [done|].
  by rewrite filter_cons_False.
Qed.

Lemma get_start_node_first_candidate (g : Graph.t) (pre post : list string) (nid : string) :
  dict_keys (Graph.nodes g) = pre ++ nid :: post →
  ¬ has_incoming g nid →
  Forall (has_incoming g) pre →
  Graph.get_start_node g = Some nid.
Proof.
  intros Hkeys Hnid Hpre. unfold Graph.get_start_node.
  destruct (Graph.nodes g) as [|kn ns] eqn:Hns.
  { by destruct pre. }
  rewrite Hkeys, filter_app, filter_all_rejected, filter_cons_True; [done | |].
  - by rewrite target_nodes_spec.
  - eapply Forall_impl; [exact Hpre|]. intros x Hx Hn. apply Hn.
    by apply target_nodes_spec.
Qed.

Lemma get_start_node_no_candidate (g : Graph.t) :
  Forall (has_incoming g) (dict_keys (Graph.nodes g)) →
  Graph.get_start_node g = head (dict_keys (Graph.nodes g)).
Proof.
  intros Hall. unfold Graph.get_start_node.
  destruct (Graph.nodes g) as [|kn ns] eqn:Hns; [done|].
  rewrite filter_all_rejected; [done|].
  eapply Forall_impl; [exact Hall|]. intros x Hx Hn. apply Hn.
  by apply target_nodes_spec.
Qed.

Lemma get_start_node_ext (g g' : Graph.t) :
  dict_keys (Graph.nodes g') = dict_keys (Graph.nodes g) →
  (∀ nid, has_incoming g' nid ↔ has_incoming g nid) →
  Graph.get_start_node g' = Graph.get_start_node g.
Proof.
  intros Hkeys Hinc. unfold Graph.get_start_node.
  assert ((map_img (Graph.edges g') : gset string) = map_img (Graph.edges g)) as ->.
  { apply set_eq. intros x. by rewrite !target_nodes_spec. }
  rewrite Hkeys.
  destruct (Graph.nodes g) as [|kn ns], (Graph.nodes g') as [|kn' ns']; done.
Qed.

(** C8.  [get_start_node] returns nothing for the empty graph; otherwise the
    first node, in declaration order, that has no incoming default edge; and
    the first declared node when every node has an incoming edge.  The
    result is determined by the declaration order and the set of edge
    targets. *)
Theorem get_start_node_spec (g : Graph.t) :
  (Graph.nodes g = [] → Graph.get_start_node g = None) ∧
  (∀ pre nid post,
     dict_keys (Graph.nodes g) = pre ++ nid :: post →
     ¬ has_incoming g nid →
     Forall (has_incoming g) pre →
     Graph.get_start_node g = Some nid) ∧
  (∀ first rest,
     dict_keys (Graph.nodes g) = first :: rest →
     Forall (has_incoming g) (first :: rest) →
     Graph.get_start_node g = Some first) ∧
  (∀ g',
     dict_keys (Graph.nodes g') = dict_keys (Graph.nodes g) →
     (∀ nid, has_incoming g' nid ↔ has_incoming g nid) →
     Graph.get_start_node g' = Graph.get_start_node g).
Proof.
  split_and!.
  - intros Hns. unfold Graph.get_start_node. by rewrite Hns.
  - intros pre nid post. apply get_start_node_first_candidate.
  - intros first rest Hkeys Hall. rewrite get_start_node_no_candidate.
    + by rewrite Hkeys.
    + by rewrite Hkeys.
  - intros g'. apply get_start_node_ext.
Qed.

(** In the two-node cycle every node has an incoming edge: the first
    declared node is the start node. *)
Lemma get_start_node_spec_witness :
  Graph.get_start_node Examples.cycle_graph = Some "a".
Proof.
  apply (proj1 (proj2 (proj2 (get_start_node_spec Examples.cycle_graph))) "a" ["b"]).
  - reflexivity.
  - repeat constructor.
    + exists "b". reflexivity.
    + exists "a". reflexivity.
Defined.

(** ** Step-reference resolution: [resolve_functions] *)

Lemma resolve_nodes_idempotent (reg : option ToolRegistry.t) (ns ns' : list (string * Node.t)) :
  Graph.resolve_nodes reg ns = (Return tt, ns') →
  Graph.resolve_nodes reg ns' = (Return tt, ns').
Proof.
  revert ns'. induction ns as [|[k node] rest IH]; intros ns'; simpl.
  { by intros [= <-]. }
  destruct (Node.func node) as [fname|f|] eqn:Hf.
  - destruct reg as [r|]; [|done].
    destruct (ToolRegistry.has_tool r fname); [|done].
    destruct (ToolRegistry.get_tool r fname) as [f|e]; [|done].
    destruct (Graph.resolve_nodes (Some r) rest) as [res rest'] eqn:Hrest.
    intros [= -> <-]. simpl. by rewrite (IH rest').
  - destruct (Graph.resolve_nodes reg rest) as [res rest'] eqn:Hrest.
    intros [= -> <-]. simpl. by rewrite Hf, (IH rest').
  - done.
Qed.

Lemma resolve_functions_idempotent (g g' : Graph.t) (reg : option ToolRegistry.t) :
  Graph.resolve_functions g reg = (Return tt, g') →
  Graph.resolve_functions g' reg = (Return tt, g').
Proof.
  unfold Graph.resolve_functions.
  destruct (Graph.resolve_nodes reg (Graph.nodes g)) as [res ns] eqn:Hns.
  intros [= -> <-]. simpl.
  by rewrite (resolve_nodes_idempotent _ _ _ Hns).
Qed.

(** C9.  Once [resolve_functions] has succeeded on a graph, a second call
    with the same registry succeeds and leaves the graph as it is; and a
    run on the graph resolved once (which resolves it again) is the same as
    the run on the original graph. *)
Theorem resolve_functions_twice (g g' : Graph.t) (reg : option ToolRegistry.t) :
  Graph.resolve_functions g reg = (Return tt, g') →
  Graph.resolve_functions g' reg = (Return tt, g') ∧
  ∀ (self : WorkflowEngine.t) graph_id initial_state start_node uuid,
    WorkflowEngine.graphs self !! graph_id = Some g →
    WorkflowEngine.run_graph
      (WorkflowEngine.mk (<[graph_id := g']> (WorkflowEngine.graphs self))
                         (WorkflowEngine.runs self))
      graph_id initial_state start_node reg uuid
    = WorkflowEngine.run_graph self graph_id initial_state start_node reg uuid.
Proof.
  intros Hres. pose proof (resolve_functions_idempotent _ _ _ Hres) as Hres'.
  split; [done|].
  intros self graph_id initial_state start_node uuid Hg.
  unfold WorkflowEngine.run_graph, WorkflowEngine.run_graph_traced. simpl.
  by rewrite lookup_insert_eq, Hg, Hres, Hres', insert_insert_eq.
Qed.

Lemma resolve_functions_twice_witness :
  ∃ g', Graph.resolve_functions Examples.cycle_graph (Some Examples.registry) = (Return tt, g') ∧
        Graph.resolve_functions g' (Some Examples.registry) = (Return tt, g').
Proof.
  eexists. split; [reflexivity|].
  apply (resolve_functions_twice Examples.cycle_graph _ (Some Examples.registry)).
  reflexivity.
Defined.

Lemma resolve_nodes_missing_raises (reg : option ToolRegistry.t) (ns : list (string * Node.t)) :
  (∃ k node, (k, node) ∈ ns ∧ names_missing_tool reg node) →
  ∃ e ns', Graph.resolve_nodes reg ns = (Raise e, ns') ∧ exn_class e = "ValueError".
Proof.
  intros (k & node & Hin & fname & Hf & Hmiss).
  induction ns as [|[k0 node0] rest IH]; [by apply elem_of_nil in Hin|].
  simpl. apply elem_of_cons in Hin as [[= <- <-]|Hin].
  - rewrite Hf. destruct reg as [r|]; [|by eauto].
    rewrite (Hmiss r eq_refl). by eauto.
  - destruct (IH Hin) as (e & ns' & Hrest & He). rewrite Hrest.
    destruct (Node.func node0) as [fname0|f0|]; [|by eauto..].
    destruct reg as [r|]; [|by eauto].
    destruct (ToolRegistry.has_tool r fname0) eqn:Hhas; [|by eauto].
    unfold ToolRegistry.get_tool. unfold ToolRegistry.has_tool in Hhas.
    destruct (ToolRegistry.tools r !! fname0); [by eauto | done].
Qed.

(** C2 (counterexample).  The run of a graph whose only node names a tool
    that is not registered raises [ValueError] out of [run_graph]; the state
    that was registered for the run is neither completed nor carries an
    error. *)
Lemma run_graph_unresolved_raises :
  ∃ self' s,
    WorkflowEngine.run_graph Examples.engine "missing" ∅ None (Some Examples.registry) "run-1"
    = (Raise (ValueError "Tool 'absent' not found in registry"), self') ∧
    WorkflowEngine.get_run_state self' "run-1" = Some s ∧
    WorkflowState.completed s = false ∧
    WorkflowState.error s = None.
Proof. do 2 eexists. split_and!; reflexivity. Qed.

(** C2 (amended).  When the graph of a run contains a node whose step
    reference names a tool absent from the registry, [run_graph] raises the
    [ValueError] of the resolution to its caller.  The state created for the
    run is registered in the run registry, but it is left as created: not
    completed, without error, with an empty log. *)
Theorem run_graph_unresolved (self : WorkflowEngine.t) (graph_id : string) (g : Graph.t)
    (initial_state : gmap string value) (start_node : option string)
    (reg : option ToolRegistry.t) (uuid : string) :
  WorkflowEngine.graphs self !! graph_id = Some g →
  (∃ k node, (k, node) ∈ Graph.nodes g ∧ names_missing_tool reg node) →
  ∃ e self',
    WorkflowEngine.run_graph self graph_id initial_state start_node reg uuid
    = (Raise e, self') ∧
    exn_class e = "ValueError" ∧
    Graph.resolve_functions g reg = (Raise e, default g (WorkflowEngine.graphs self' !! graph_id)) ∧
    WorkflowEngine.get_run_state self' uuid = Some (WorkflowState.new initial_state uuid) ∧
    WorkflowState.completed (WorkflowState.new initial_state uuid) = false ∧
    WorkflowState.error (WorkflowState.new initial_state uuid) = None ∧
    WorkflowState.execution_log (WorkflowState.new initial_state uuid) = [].
Proof.
  intros Hg Hmiss.
  destruct (resolve_nodes_missing_raises reg _ Hmiss) as (e & ns' & Hres & He).
  unfold WorkflowEngine.run_graph, WorkflowEngine.run_graph_traced, Graph.resolve_functions.
  rewrite Hg, Hres. do 2 eexists. split; [reflexivity|]. simpl.
  unfold WorkflowEngine.get_run_state. simpl.
  rewrite !lookup_insert_eq. simpl. by split_and!.
Qed.

Lemma run_graph_unresolved_witness :
  ∃ e self',
    WorkflowEngine.run_graph Examples.engine "missing" ∅ (Some "a")
      (Some Examples.registry) "run-1" = (Raise e, self') ∧
    exn_class e = "ValueError".
Proof.
  destruct (run_graph_unresolved Examples.engine "missing" Examples.missing_graph ∅
              (Some "a") (Some Examples.registry) "run-1") as (e & self' & H1 & H2 & _).
  - reflexivity.
  - exists "a", (Node.mk "a" "A" (FString "absent") STANDARD None None).
    split; [left|]. exists "absent". split; [reflexivity|].
    intros r [= <-]. reflexivity.
  - by exists e, self'.
Defined.

(** ** The start node of a run *)

(** [start_node or graph.get_start_node()]: the empty string is falsy, so
    the run started with it is the run started without a start node. *)
Lemma run_graph_traced_empty_start (self : WorkflowEngine.t) (graph_id : string)
    (initial_state : gmap string value) (reg : option ToolRegistry.t) (uuid : string) :
  WorkflowEngine.run_graph_traced self graph_id initial_state (Some "") reg uuid
  = WorkflowEngine.run_graph_traced self graph_id initial_state None reg uuid.
Proof. reflexivity. Qed.

(** ** One iteration of the step loop *)

Section Iteration.
Context (graph : Graph.t) (current_node_id : string) (node : Node.t).
Context (step : callable) (visited_nodes : gset string) (s : WorkflowState.t).
Context (result : value) (s1 : WorkflowState.t).
Hypothesis Hnode : dict_get current_node_id (Graph.nodes graph) = Some node.
Hypothesis Hfunc : Node.func node = FCallable step.
Hypothesis Hstep : step (state_at_step node current_node_id s) = (Return result, s1).

(** A loop node whose continuation callable answers false hands "nothing"
    to the loop test, whatever the default edge of the node is; the
    iteration neither logs "Workflow completed" nor sets the completion
    flag. *)
Lemma loop_body_loop_exit (loop_condition_func : callable) (v : value) (s2 : WorkflowState.t) :
  Node.node_type node = LOOP →
  Node.loop_condition_func node = Some loop_condition_func →
  loop_condition_func (state_after_step node result s1) = (Return v, s2) →
  truthy v = false →
  ∃ tr,
    WorkflowEngine.loop_body graph current_node_id visited_nodes s
    = (Return (Next, None, visited_nodes),
       WorkflowState.log (Node.id node) "Loop condition not met, exiting loop" VNone s2,
       tr) ∧
    Forall (fun ev => ev.1 ≠ OpSetCompleted) tr.
Proof using Hnode Hfunc Hstep.
  intros Hty Hlf Hcall Hv. unfold WorkflowEngine.loop_body.
  rewrite Hnode, Hfunc, Hty, Hlf. unfold state_at_step, state_after_step in *.
  unfold bind, call_func, call, set_current_node, log, mutate. simpl.
  rewrite Hstep. destruct (truthy result); simpl; rewrite Hcall, Hv; simpl;
    (eexists; split; [reflexivity | repeat constructor; done]).
Qed.

Section Conditional.
Context (condition_func : callable) (v : value) (s2 : WorkflowState.t).
Hypothesis Hty : Node.node_type node = CONDITIONAL.
Hypothesis Hcf : Node.condition_func node = Some condition_func.
Hypothesis Hcall : condition_func (state_after_step node result s1) = (Return v, s2).

Lemma loop_body_conditional_jump (target : string) :
  v = VStr target → target ≠ "" → dict_mem target (Graph.nodes graph) = true →
  ∃ visited tr,
    WorkflowEngine.loop_body graph current_node_id visited_nodes s
    = (Return (Next, Some target, visited), s2, tr).
Proof using Hnode Hfunc Hstep Hty Hcf Hcall.
  intros -> Hne Hmem. unfold WorkflowEngine.loop_body.
  rewrite Hnode, Hfunc, Hty, Hcf. unfold state_at_step, state_after_step in *.
  unfold bind, call_func, call, set_current_node, log, mutate. simpl.
  apply String.eqb_neq in Hne.
  rewrite Hstep. destruct (truthy result); simpl; rewrite Hcall; simpl;
    rewrite Hne; simpl; rewrite Hmem; simpl; rewrite Hne; simpl; by eauto.
Qed.

Lemma loop_body_conditional_fallback :
  v = VNone ∨ v = VStr "" ∨
  (∃ target, v = VStr target ∧ dict_mem target (Graph.nodes graph) = false) →
  next_of (WorkflowEngine.loop_body graph current_node_id visited_nodes s)
  = Some (Graph.edges graph !! current_node_id).
Proof using Hnode Hfunc Hstep Hty Hcf Hcall.
  intros Hv. unfold WorkflowEngine.loop_body.
  rewrite Hnode, Hfunc, Hty, Hcf. unfold state_at_step, state_after_step in *.
  unfold bind, call_func, call, set_current_node, log, mutate, get_state. simpl.
  rewrite Hstep.
  destruct Hv as [->|[->|(target & -> & Hmem)]];
    destruct (truthy result); simpl; rewrite Hcall; simpl;
    try (destruct (String.eqb target ""); simpl; rewrite ?Hmem; simpl);
    unfold Graph.get_next_node;
    destruct (id_truthy (Graph.edges graph !! current_node_id)); reflexivity.
Qed.
End Conditional.
End Iteration.

(** C7 (the claim as stated fails for the empty identity).  The routing
    callable of the conditional node [c] of [cond_empty_graph] returns the
    empty string, which is the identity of a node of the graph; the engine
    nevertheless advances to [d], the default successor of [c]: the test
    [next_node and next_node in graph.nodes] rejects the empty string before
    it looks at the nodes. *)
Lemma conditional_routing_empty_identity :
  dict_get "c" (Graph.nodes Examples.cond_empty_graph)
  = Some (Node.mk "c" "C" (FCallable Examples.noop) CONDITIONAL
            (Some (Examples.goto "")) None) ∧
  (∀ s, Examples.goto "" s = (Return (VStr ""), s)) ∧
  dict_mem "" (Graph.nodes Examples.cond_empty_graph) = true ∧
  Graph.edges Examples.cond_empty_graph !! "c" = Some "d" ∧
  next_of (WorkflowEngine.loop_body Examples.cond_empty_graph "c" ∅
             (WorkflowState.new ∅ "run-1"))
  = Some (Some "d").
Proof. split_and!; [reflexivity | intros s; reflexivity | reflexivity..]. Qed.

(** C7 (amended).  A conditional node whose routing callable returns the
    non-empty identity of a node of the graph makes the engine advance to
    that node, whatever the node's default edge is; when the callable
    returns nothing, the empty string or an identity that is not in the
    graph, the next node is the default successor: the entry of the edge
    mapping for the current node. *)
Theorem conditional_routing (graph : Graph.t) (current_node_id : string) (node : Node.t)
    (step condition_func : callable) (visited_nodes : gset string)
    (s s1 s2 : WorkflowState.t) (result v : value) :
  dict_get current_node_id (Graph.nodes graph) = Some node →
  Node.func node = FCallable step →
  Node.node_type node = CONDITIONAL →
  Node.condition_func node = Some condition_func →
  step (state_at_step node current_node_id s) = (Return result, s1) →
  condition_func (state_after_step node result s1) = (Return v, s2) →
  (∀ target,
     v = VStr target → target ≠ "" → dict_mem target (Graph.nodes graph) = true →
     ∃ visited tr,
       WorkflowEngine.loop_body graph current_node_id visited_nodes s
       = (Return (Next, Some target, visited), s2, tr)) ∧
  (v = VNone ∨ v = VStr "" ∨
   (∃ target, v = VStr target ∧ dict_mem target (Graph.nodes graph) = false) →
   next_of (WorkflowEngine.loop_body graph current_node_id visited_nodes s)
   = Some (Graph.edges graph !! current_node_id)).
Proof.
  intros Hnode Hfunc Hty Hcf Hstep Hcall. split.
  - intros target. by eapply loop_body_conditional_jump.
  - by eapply loop_body_conditional_fallback.
Qed.

(** The conditional node [c] routes to [t] although its default edge leads
    to [d]; when its routing callable names [x], which is not a node of the
    graph, the next node is [d]. *)
Lemma conditional_routing_witness :
  next_of (WorkflowEngine.loop_body (Examples.cond_graph "t") "c" ∅ (WorkflowState.new ∅ "run-1"))
  = Some (Some "t") ∧
  next_of (WorkflowEngine.loop_body (Examples.cond_graph "x") "c" ∅ (WorkflowState.new ∅ "run-1"))
  = Some (Some "d").
Proof.
  split.
  - destruct (proj1 (conditional_routing (Examples.cond_graph "t") "c"
                (Node.mk "c" "C" (FCallable Examples.noop) CONDITIONAL
                   (Some (Examples.goto "t")) None)
                Examples.noop (Examples.goto "t") ∅ (WorkflowState.new ∅ "run-1")
                _ _ VNone (VStr "t")
                eq_refl eq_refl eq_refl eq_refl eq_refl eq_refl)
                "t" eq_refl ltac:(discriminate) eq_refl) as (visited & tr & ->).
    reflexivity.
  - rewrite (proj2 (conditional_routing (Examples.cond_graph "x") "c"
               (Node.mk "c" "C" (FCallable Examples.noop) CONDITIONAL
                  (Some (Examples.goto "x")) None)
               Examples.noop (Examples.goto "x") ∅ (WorkflowState.new ∅ "run-1")
               _ _ VNone (VStr "x")
               eq_refl eq_refl eq_refl eq_refl eq_refl eq_refl)
               (or_intror (or_intror (ex_intro _ "x" (conj eq_refl eq_refl))))).
    reflexivity.
Defined.

(** C1 (the code at the failing input).  The run of a graph with one loop
    node whose continuation callable answers false returns a state that is
    not marked completed and whose log has no "Workflow completed" entry:
    the [continue] of the loop branch skips the completion check. *)
Theorem loop_exit_run_not_completed :
  ∃ s self',
    WorkflowEngine.run_graph Examples.engine "loop" ∅ None (Some Examples.registry) "run-1"
    = (Return s, self') ∧
    WorkflowState.completed s = false ∧
    WorkflowState.error s = None ∧
    WorkflowState.execution_log s
    = [ LogEntry.mk "engine" "Starting workflow from node: L" VNone;
        LogEntry.mk "L" "Executing node: Loop" VNone;
        LogEntry.mk "L" "Loop condition not met, exiting loop" VNone ].
Proof. do 2 eexists. split_and!; reflexivity. Qed.

(** ** Shapes of event sequences *)

(** Two sequences that are split around an element satisfying [P], the
    first one with no other such element: the splits coincide. *)
Lemma split_at_unique {A} (P : A → Prop) (l1 l2 pre post : list A) (x y : A) :
  l1 ++ x :: l2 = pre ++ y :: post →
  Forall (fun a => ¬ P a) l1 → Forall (fun a => ¬ P a) l2 → P y →
  pre = l1 ∧ y = x ∧ post = l2.
Proof.
  revert pre. induction l1 as [|a l1 IH]; intros pre Heq H1 H2 Hy.
  - destruct pre as [|b pre]; simpl in Heq.
    + by simplify_eq.
    + simplify_eq. exfalso.
      apply Forall_app in H2 as [_ [H2 _]%Forall_cons]. done.
  - apply Forall_cons in H1 as [Ha H1]. destruct pre as [|b pre]; simpl in Heq.
    + simplify_eq. done.
    + simplify_eq. destruct (IH pre) as (-> & -> & ->); done.
Qed.

Lemma no_split_when_absent {A} (P : A → Prop) (l pre post : list A) (y : A) :
  l = pre ++ y :: post → Forall (fun a => ¬ P a) l → P y → False.
Proof.
  intros -> [_ [Hl _]%Forall_cons]%Forall_app Hy. done.
Qed.

(** ** The loop test

    The fuel of [while_loop] is never what ends the loop: with the fuel
    [run_graph] provides, one more unit changes nothing. *)

Lemma while_loop_S (fuel : nat) graph current_node_id visited_nodes (iteration : nat) :
  WorkflowEngine.while_loop (S fuel) graph current_node_id visited_nodes iteration
  = if id_truthy current_node_id && (iteration <? max_iterations)%nat then
      r <- WorkflowEngine.loop_body graph (default "" current_node_id) visited_nodes ;;
      match r with
      | (Break, _, _) => ret (S iteration)
      | (Next, next, visited) =>
          WorkflowEngine.while_loop fuel graph next visited (S iteration)
      end
    else ret iteration.
Proof. reflexivity. Qed.

Lemma while_loop_fuel (fuel : nat) graph current_node_id visited_nodes (iteration : nat) s :
  (max_iterations ≤ fuel + iteration)%nat →
  WorkflowEngine.while_loop (S fuel) graph current_node_id visited_nodes iteration s
  = WorkflowEngine.while_loop fuel graph current_node_id visited_nodes iteration s.
Proof.
  revert current_node_id visited_nodes iteration s.
  induction fuel as [|fuel IH]; intros cur vis it s Hfuel.
  - cbn [WorkflowEngine.while_loop].
    assert ((it <? max_iterations)%nat = false) as -> by (apply Nat.ltb_ge; lia).
    by rewrite andb_false_r.
  - rewrite (while_loop_S (S fuel)), (while_loop_S fuel).
    destruct (_ && _); [|done]. unfold bind.
    destruct (WorkflowEngine.loop_body graph _ vis s) as [[[[[[] next] vis']|e] s1] tr1];
      [|done..].
    rewrite IH; [done | lia].
Qed.

(** ** Errors raised by callables (the [except] handler) *)

Create HintDb guarded.

Lemma guarded_ret {A} (a : A) : guarded (ret a).
Proof. intros s. constructor. Qed.

Lemma guarded_raise {A} (e : exn) : guarded (@raise A e).
Proof. intros s. left. constructor. Qed.

Lemma guarded_get_state : guarded get_state.
Proof. intros s. constructor. Qed.

Lemma guarded_mutate (o : op) f : ¬ raising o → guarded (mutate o f).
Proof. intros Ho s. unfold mutate. simpl. constructor; [done | constructor]. Qed.

Lemma guarded_set_current_node nid : guarded (set_current_node nid).
Proof. apply guarded_mutate. intros H. exact H. Qed.

Lemma guarded_set_error msg : guarded (set_error msg).
Proof. apply guarded_mutate. intros H. exact H. Qed.

Lemma guarded_set_completed : guarded set_completed.
Proof. apply guarded_mutate. intros H. exact H. Qed.

Lemma guarded_log nid msg res : guarded (log nid msg res).
Proof. apply guarded_mutate. intros H. exact H. Qed.

Lemma guarded_call k nid f : guarded (call k nid f).
Proof.
  intros s. unfold call. destruct (f s) as [[v|e] s1]; simpl.
  - constructor; [intros H; exact H | constructor].
  - right. exists [], k, nid. split; [done | constructor].
Qed.

Lemma guarded_bind {A B} (m : M A) (k : A → M B) :
  guarded m → (∀ a, guarded (k a)) → guarded (bind m k).
Proof.
  intros Hm Hk s. unfold bind. specialize (Hm s).
  destruct (m s) as [[[a|e] s1] tr1]; simpl in *; [|done].
  specialize (Hk a s1). destruct (k a s1) as [[[b|e] s2] tr2]; simpl in *.
  - by apply Forall_app.
  - destruct Hk as [Hq|(tr' & c & nid & -> & Hq)].
    + left. by apply Forall_app.
    + right. exists (tr1 ++ tr'), c, nid. split; [by rewrite app_assoc|].
      by apply Forall_app.
Qed.

#[local] Hint Resolve guarded_ret guarded_raise guarded_get_state guarded_set_current_node
  guarded_set_error guarded_set_completed guarded_log guarded_call : guarded.

Ltac guarded_steps :=
  repeat (intros;
          first [ solve [auto with guarded]
                | apply guarded_bind
                | match goal with
                  | |- guarded (match ?x with _ => _ end) => destruct x eqn:?
                  end ]).

Lemma guarded_loop_body graph current_node_id visited_nodes :
  guarded (WorkflowEngine.loop_body graph current_node_id visited_nodes).
Proof. unfold WorkflowEngine.loop_body, call_func, in_nodes. guarded_steps. Qed.

Lemma guarded_while_loop fuel graph current_node_id visited_nodes iteration :
  guarded (WorkflowEngine.while_loop fuel graph current_node_id visited_nodes iteration).
Proof.
  revert current_node_id visited_nodes iteration.
  induction fuel as [|fuel IH]; intros cur vis it; simpl.
  - destruct (_ && _); auto with guarded.
  - destruct (_ && _); [|auto with guarded].
    apply guarded_bind; [apply guarded_loop_body|].
    intros [[[] next] vis']; auto with guarded.
Qed.

Lemma try_block_unfold graph current_node_id s :
  WorkflowEngine.try_block graph current_node_id s
  = match WorkflowEngine.try_body graph current_node_id s with
    | (Return a, s1, tr1) => (Return a, s1, tr1)
    | (Raise e, s1, tr1) => (Return tt, handled e s1, tr1 ++ handler_events e s1)
    end.
Proof.
  unfold WorkflowEngine.try_block, try_except.
  by destruct (WorkflowEngine.try_body graph current_node_id s) as [[[[]|e] s1] tr1].
Qed.

Lemma guarded_try_body graph current_node_id :
  guarded (WorkflowEngine.try_body graph current_node_id).
Proof.
  apply guarded_bind; [apply guarded_while_loop|].
  intros iteration. destruct (_ <=? _)%nat; [apply guarded_bind|]; auto with guarded.
Qed.

Lemma quiet_handler_events e s : quiet (handler_events e s).
Proof. repeat constructor; intros H; exact H. Qed.

(** The run proper never raises, and a callable that raises is followed by
    the three actions of the handler and nothing else. *)
Lemma execute_catches (graph : Graph.t) (start_node : option string) (s0 : WorkflowState.t) :
  ∃ s tr,
    WorkflowEngine.execute graph start_node s0 = (Return tt, s, tr) ∧
    ∀ pre k nid e s_call post,
      tr = pre ++ (OpCall k nid (Raise e), s_call) :: post →
      post = handler_events e s_call ∧ s = handled e s_call.
Proof.
  unfold WorkflowEngine.execute.
  set (cur := if id_truthy start_node then start_node else Graph.get_start_node graph).
  destruct (negb (id_truthy cur)).
  { do 2 eexists. split; [reflexivity|]. intros pre k nid e s_call post Heq.
    exfalso. eapply (no_split_when_absent (fun ev => raising ev.1)); [exact Heq| |exact I].
    repeat constructor; intros H; exact H. }
  unfold bind at 1. unfold log at 1, mutate. rewrite try_block_unfold.
  pose proof (guarded_try_body graph cur
    (WorkflowState.log "engine" ("Starting workflow from node: " +:+ default "" cur) VNone s0))
    as Hshape.
  destruct (WorkflowEngine.try_body graph cur _) as [[[[]|e0] sB] trB]; simpl in Hshape.
  - do 2 eexists. split; [reflexivity|]. intros pre k nid e s_call post Heq.
    exfalso. eapply (no_split_when_absent (fun ev => raising ev.1)); [exact Heq| |exact I].
    constructor; [intros H; exact H | exact Hshape].
  - do 2 eexists. split; [reflexivity|]. intros pre k nid e s_call post Heq.
    destruct Hshape as [Hq|(tr' & k0 & nid0 & -> & Hq)].
    + exfalso. eapply (no_split_when_absent (fun ev => raising ev.1)); [exact Heq| |exact I].
      constructor; [intros H; exact H|]. apply Forall_app. split; [done|].
      apply quiet_handler_events.
    + rewrite <- app_assoc in Heq. rewrite (app_assoc _ tr') in Heq.
      apply (split_at_unique (fun ev => raising ev.1)) in Heq as (_ & Hev & Hpost).
      * by simplify_eq.
      * constructor; [intros H; exact H | exact Hq].
      * apply quiet_handler_events.
      * exact I.
Qed.

(** A run on a registered graph whose step references resolve. *)
Lemma run_graph_traced_resolved (self : WorkflowEngine.t) (graph_id : string)
    (g g' : Graph.t) (initial_state : gmap string value) (start_node : option string)
    (reg : option ToolRegistry.t) (uuid : string) (s : WorkflowState.t) (tr : list event) :
  WorkflowEngine.graphs self !! graph_id = Some g →
  Graph.resolve_functions g reg = (Return tt, g') →
  WorkflowEngine.execute g' start_node (WorkflowState.new initial_state uuid)
  = (Return tt, s, tr) →
  WorkflowEngine.run_graph_traced self graph_id initial_state start_node reg uuid
  = (Return (s, tr),
     WorkflowEngine.mk (<[graph_id := g']> (WorkflowEngine.graphs self))
                       (<[uuid := s]> (<[uuid := WorkflowState.new initial_state uuid]>
                                        (WorkflowEngine.runs self)))).
Proof.
  intros Hg Hres Hexec. unfold WorkflowEngine.run_graph_traced.
  by rewrite Hg, Hres, Hexec.
Qed.

(** C6.  On a registered graph whose step references resolve, [run_graph]
    returns a state and raises nothing.  Whenever a step, routing or
    loop-continuation callable raises during the run, the loop is left at
    once: the only later actions of the engine are those of the handler,
    which sets the error field to the message of the exception, sets the
    completion flag and appends the final "Error: ..." log entry. *)
Theorem callable_errors_are_caught (self : WorkflowEngine.t) (graph_id : string)
    (g g' : Graph.t) (initial_state : gmap string value) (start_node : option string)
    (reg : option ToolRegistry.t) (uuid : string) :
  WorkflowEngine.graphs self !! graph_id = Some g →
  Graph.resolve_functions g reg = (Return tt, g') →
  ∃ s tr self',
    WorkflowEngine.run_graph_traced self graph_id initial_state start_node reg uuid
    = (Return (s, tr), self') ∧
    WorkflowEngine.run_graph self graph_id initial_state start_node reg uuid
    = (Return s, self') ∧
    WorkflowEngine.get_run_state self' uuid = Some s ∧
    ∀ pre k nid e s_call post,
      tr = pre ++ (OpCall k nid (Raise e), s_call) :: post →
      post = handler_events e s_call ∧
      s = handled e s_call ∧
      WorkflowState.error s = Some (exn_msg e) ∧
      WorkflowState.completed s = true ∧
      WorkflowState.data s = WorkflowState.data s_call ∧
      WorkflowState.execution_log s
      = WorkflowState.execution_log s_call
        ++ [LogEntry.mk "engine" ("Error: " +:+ exn_msg e) VNone].
Proof.
  intros Hg Hres.
  destruct (execute_catches g' start_node (WorkflowState.new initial_state uuid))
    as (s & tr & Hexec & Hcatch).
  pose proof (run_graph_traced_resolved _ _ _ _ _ _ _ _ _ _ Hg Hres Hexec) as Hrun.
  do 3 eexists. split; [exact Hrun|]. split_and!.
  - unfold WorkflowEngine.run_graph. by rewrite Hrun.
  - unfold WorkflowEngine.get_run_state. simpl. by rewrite lookup_insert_eq.
  - intros pre k nid e s_call post Heq.
    destruct (Hcatch _ _ _ _ _ _ Heq) as [-> ->]. done.
Qed.

(** The step of the only node raises: the run returns with the message of
    the exception as its error. *)
Lemma callable_errors_are_caught_witness :
  ∃ s self',
    WorkflowEngine.run_graph Examples.engine "boom" ∅ None None "run-1" = (Return s, self') ∧
    WorkflowState.error s = Some "boom" ∧
    WorkflowState.completed s = true.
Proof.
  destruct (callable_errors_are_caught Examples.engine "boom" Examples.boom_graph
              (Graph.mk "boom" (Graph.nodes Examples.boom_graph) ∅ None)
              ∅ None None "run-1" eq_refl eq_refl)
    as (s & tr & self' & Htr & Hrun & _ & Hcatch).
  exists s, self'. split; [exact Hrun|].
  injection Htr as Hs Htr _.
  destruct (Hcatch Examples.boom_events_before_call StepCall "a" Examples.boom_exn
              Examples.boom_state_at_call
              (handler_events Examples.boom_exn Examples.boom_state_at_call))
    as (_ & _ & Herr & Hdone & _).
  - rewrite <- Htr. vm_compute. reflexivity.
  - split; assumption.
Defined.

(** ** The completion flag *)

(** Splitting a sequence at an element satisfying [P] when its first such
    element is known. *)
Lemma split_at_first {A} (P : A → Prop) (l1 rest pre post : list A) (x z : A) :
  l1 ++ x :: rest = pre ++ z :: post →
  Forall (fun a => ¬ P a) l1 → P z →
  (pre = l1 ∧ z = x ∧ post = rest) ∨
  (∃ pre', pre = l1 ++ x :: pre' ∧ rest = pre' ++ z :: post).
Proof.
  revert pre. induction l1 as [|a l1 IH]; intros pre Heq H1 Hz.
  - destruct pre as [|b pre]; simpl in Heq; simplify_eq; [by left|].
    right. by exists pre.
  - apply Forall_cons in H1 as [Ha H1]. destruct pre as [|b pre]; simpl in Heq.
    + by simplify_eq.
    + simplify_eq. destruct (IH pre) as [(-> & -> & ->)|(pre' & -> & ->)]; try done.
      * by left.
      * right. by exists pre'.
Qed.

Create HintDb completion.

Lemma never_ret {A} (a : A) : never_completes (ret a).
Proof. intros s. constructor. Qed.

Lemma never_raise {A} (e : exn) : never_completes (@raise A e).
Proof. intros s. constructor. Qed.

Lemma never_get_state : never_completes get_state.
Proof. intros s. constructor. Qed.

Lemma never_mutate (o : op) f : o ≠ OpSetCompleted → never_completes (mutate o f).
Proof. intros Ho s. unfold mutate. simpl. constructor; [exact Ho | constructor]. Qed.

Lemma never_set_current_node nid : never_completes (set_current_node nid).
Proof. by apply never_mutate. Qed.

Lemma never_set_error msg : never_completes (set_error msg).
Proof. by apply never_mutate. Qed.

Lemma never_log nid msg res : never_completes (log nid msg res).
Proof. by apply never_mutate. Qed.

Lemma never_call k nid f : never_completes (call k nid f).
Proof.
  intros s. unfold call. destruct (f s) as [r s1]. simpl.
  constructor; [discriminate | constructor].
Qed.

Lemma never_bind {A B} (m : M A) (k : A → M B) :
  never_completes m → (∀ a, never_completes (k a)) → never_completes (bind m k).
Proof.
  intros Hm Hk s. unfold bind. specialize (Hm s).
  destruct (m s) as [[[a|e] s1] tr1]; simpl in *; [|done].
  specialize (Hk a s1). destruct (k a s1) as [[r s2] tr2]; simpl in *.
  by apply Forall_app.
Qed.

#[local] Hint Resolve never_ret never_raise never_get_state never_set_current_node
  never_set_error never_log never_call : completion.

Ltac never_steps :=
  repeat (intros;
          first [ solve [auto with completion]
                | apply never_bind
                | match goal with
                  | |- never_completes (match ?x with _ => _ end) => destruct x eqn:?
                  end ]).

Lemma completes_of_never {A} (m : M A) (stop : A → Prop) :
  never_completes m → completes m stop.
Proof. intros Hm s. specialize (Hm s). destruct (m s) as [[r s1] tr]. by left. Qed.

Lemma completes_set_completed : completes set_completed (fun _ => True).
Proof. intros s. right. exists [], tt. split_and!; [done | constructor | done..]. Qed.

(** After an action that may set the flag, only the return of a value may
    follow. *)
Lemma completes_bind {A B} (m : M A) (k : A → M B) (stopA : A → Prop) (stopB : B → Prop) :
  completes m stopA →
  (∀ a, stopA a → ∃ b, k a = ret b ∧ stopB b) →
  (∀ a, completes (k a) stopB) →
  completes (bind m k) stopB.
Proof.
  intros Hm Hstop Hk s. unfold bind. specialize (Hm s).
  destruct (m s) as [[r s1] tr1]. destruct Hm as [Hopen|(tr' & a & -> & Hopen & -> & Ha & Hc)].
  - destruct r as [a|e]; [|by left].
    specialize (Hk a s1). destruct (k a s1) as [[r2 s2] tr2].
    destruct Hk as [Hopen2|(tr' & b & -> & Hopen2 & -> & Hb & Hc)].
    + left. by apply Forall_app.
    + right. exists (tr1 ++ tr'), b. rewrite app_assoc. split_and!; try done.
      by apply Forall_app.
  - destruct (Hstop a Ha) as (b & -> & Hb). simpl. right.
    exists tr', b. by rewrite app_nil_r.
Qed.

Lemma completes_bind_never {A B} (m : M A) (k : A → M B) (stop : B → Prop) :
  never_completes m → (∀ a, completes (k a) stop) → completes (bind m k) stop.
Proof.
  intros Hm Hk. apply (completes_bind _ _ (fun _ => False)); [|done..].
  by apply completes_of_never.
Qed.

Lemma completes_set_completed_ret {A} (a : A) (stop : A → Prop) :
  stop a → completes (set_completed ;;; ret a) stop.
Proof.
  intros Ha. apply (completes_bind _ _ (fun _ => True)).
  - apply completes_set_completed.
  - intros _ _. by exists a.
  - intros _. apply completes_of_never, never_ret.
Qed.

Ltac completes_steps :=
  repeat (intros;
          first [ solve [apply completes_of_never; never_steps]
                | solve [by apply completes_set_completed_ret]
                | apply completes_bind_never; [solve [never_steps]|]
                | match goal with
                  | |- completes (match ?x with _ => _ end) _ => destruct x eqn:?
                  end ]).

Lemma completes_loop_body graph current_node_id visited_nodes :
  completes (WorkflowEngine.loop_body graph current_node_id visited_nodes) breaks.
Proof. unfold WorkflowEngine.loop_body, call_func, in_nodes. completes_steps. Qed.

Lemma completes_while_loop fuel graph current_node_id visited_nodes iteration :
  completes (WorkflowEngine.while_loop fuel graph current_node_id visited_nodes iteration)
            (fun _ => True).
Proof.
  revert current_node_id visited_nodes iteration.
  induction fuel as [|fuel IH]; intros cur vis it; simpl.
  - destruct (_ && _); apply completes_of_never, never_ret.
  - destruct (_ && _); [|apply completes_of_never, never_ret].
    eapply completes_bind; [apply completes_loop_body| |].
    + intros [[[] next] vis'] Hb; [done|]. by eexists.
    + intros [[[] next] vis']; [apply IH|apply completes_of_never, never_ret].
Qed.

Lemma settled_after_split final tr pre s1 post :
  settled_after final tr →
  tr = pre ++ (OpSetCompleted, s1) :: post →
  Forall (settled s1) post ∧ unchanged_since s1 final.
Proof.
  intros Htr ->. induction pre as [|ev pre IH]; simpl in Htr.
  - by apply Htr.
  - by apply IH, Htr.
Qed.

Lemma settled_after_open final l1 l2 :
  open_trace l1 → settled_after final l2 → settled_after final (l1 ++ l2).
Proof.
  intros H1 H2. induction H1 as [|ev l1 Hev _ IH]; [done|].
  simpl. split; [|done]. intros Hc. by destruct Hev.
Qed.

Lemma unchanged_since_refl s1 :
  WorkflowState.completed s1 = true → unchanged_since s1 s1.
Proof. intros H. unfold unchanged_since. by eauto 10. Qed.

(** The run proper: whenever the engine has set the completion flag, its
    later actions are settled. *)
Lemma execute_settled (graph : Graph.t) (start_node : option string) (s0 : WorkflowState.t) :
  ∃ s tr,
    WorkflowEngine.execute graph start_node s0 = (Return tt, s, tr) ∧
    settled_after s tr.
Proof.
  unfold WorkflowEngine.execute.
  set (cur := if id_truthy start_node then start_node else Graph.get_start_node graph).
  destruct (negb (id_truthy cur)).
  { do 2 eexists. split; [reflexivity|]. simpl. split_and!; try done.
    intros _. split; [constructor|]. by apply unchanged_since_refl. }
  unfold bind at 1. unfold log at 1, mutate. rewrite try_block_unfold.
  unfold WorkflowEngine.try_body, bind.
  pose proof (completes_while_loop max_iterations graph cur ∅ 0
    (WorkflowState.log "engine" ("Starting workflow from node: " +:+ default "" cur) VNone s0))
    as Hshape.
  destruct (WorkflowEngine.while_loop _ _ _ _ _ _) as [[rW sW] trW]. simpl in Hshape.
  destruct rW as [iteration|e].
  - destruct (max_iterations <=? iteration)%nat.
    + do 2 eexists. split; [reflexivity|].
      apply (settled_after_open _ [_]); [by repeat constructor|].
      destruct Hshape as [Hopen|(tr' & a & -> & Hopen & _ & _ & Hc)].
      * apply settled_after_open; [done|]. simpl. split_and!; try done.
        intros _. split; [constructor|]. by apply unchanged_since_refl.
      * rewrite <- app_assoc. apply settled_after_open; [done|].
        simpl. split_and!; try done.
        -- intros _. unfold settled, unchanged_since. simpl.
           split; [repeat constructor|]; simpl; by eauto 10.
        -- intros _. split; [constructor|]. by apply unchanged_since_refl.
    + do 2 eexists. split; [reflexivity|]. simpl. rewrite app_nil_r.
      split; [done|].
      destruct Hshape as [Hopen|(tr' & a & -> & Hopen & _ & _ & Hc)].
      * rewrite <- (app_nil_r trW). by apply settled_after_open.
      * apply settled_after_open; [done|]. simpl. split_and!; try done.
        intros _. split; [constructor|]. by apply unchanged_since_refl.
  - do 2 eexists. split; [reflexivity|].
    apply (settled_after_open _ [_]); [by repeat constructor|].
    destruct Hshape as [Hopen|(tr' & a & _ & _ & [=] & _)].
    apply settled_after_open; [done|]. simpl. split_and!; try done.
    intros _. unfold settled, unchanged_since, handled. simpl.
    split; [repeat constructor|]; simpl; by eauto 10.
Qed.

(** C3 (counterexample).  In the run whose step raises, the handler sets
    the completion flag and then appends the "Error: ..." entry: the log of
    the state changes after the engine has set the flag. *)
Lemma completed_state_is_mutated :
  ∃ s tr self' pre s1 s2,
    WorkflowEngine.run_graph_traced Examples.engine "boom" ∅ None None "run-1"
    = (Return (s, tr), self') ∧
    tr = pre ++ [ (OpSetCompleted, s1);
                  (OpLog (LogEntry.mk "engine" "Error: boom" VNone), s2) ] ∧
    WorkflowState.completed s1 = true ∧
    WorkflowState.execution_log s1 = Examples.boom_log ∧
    WorkflowState.execution_log s2
    = Examples.boom_log ++ [LogEntry.mk "engine" "Error: boom" VNone] ∧
    s2 ≠ s1.
Proof.
  eexists _, _, _,
    (Examples.boom_events_before_call
       ++ [ (OpCall StepCall "a" (Raise Examples.boom_exn), Examples.boom_state_at_call);
            (OpSetError "boom", WorkflowState.set_error "boom" Examples.boom_state_at_call) ]),
    _, _.
  split_and!; [reflexivity | reflexivity | reflexivity | reflexivity | reflexivity |].
  intros [=].
Qed.

(** C3 (amended).  Once the engine has set the completion flag of the state
    of a run, it invokes no callable any more and changes neither the data
    mapping nor the current-node pointer, and the flag stays set; the
    execution log stays as it is except for the final "Error: ..." entry
    that the handler appends after setting the flag. *)
Theorem completed_state_is_settled (self : WorkflowEngine.t) (graph_id : string)
    (g g' : Graph.t) (initial_state : gmap string value) (start_node : option string)
    (reg : option ToolRegistry.t) (uuid : string) :
  WorkflowEngine.graphs self !! graph_id = Some g →
  Graph.resolve_functions g reg = (Return tt, g') →
  ∃ s tr self',
    WorkflowEngine.run_graph_traced self graph_id initial_state start_node reg uuid
    = (Return (s, tr), self') ∧
    WorkflowEngine.get_run_state self' uuid = Some s ∧
    ∀ pre s1 post,
      tr = pre ++ (OpSetCompleted, s1) :: post →
      Forall (settled s1) post ∧ unchanged_since s1 s.
Proof.
  intros Hg Hres.
  destruct (execute_settled g' start_node (WorkflowState.new initial_state uuid))
    as (s & tr & Hexec & Hsettled).
  pose proof (run_graph_traced_resolved _ _ _ _ _ _ _ _ _ _ Hg Hres Hexec) as Hrun.
  do 3 eexists. split; [exact Hrun|]. split.
  - unfold WorkflowEngine.get_run_state. simpl. by rewrite lookup_insert_eq.
  - intros pre s1 post. by apply settled_after_split.
Qed.

(** In the run whose step raises, the state returned has the data and the
    current node of the state in which the flag was set. *)
Lemma completed_state_is_settled_witness :
  ∃ s tr self',
    WorkflowEngine.run_graph_traced Examples.engine "boom" ∅ None None "run-1"
    = (Return (s, tr), self') ∧
    WorkflowState.current_node s = Some "a" ∧
    WorkflowState.completed s = true.
Proof.
  destruct (completed_state_is_settled Examples.engine "boom" Examples.boom_graph
              (Graph.mk "boom" (Graph.nodes Examples.boom_graph) ∅ None)
              ∅ None None "run-1" eq_refl eq_refl)
    as (s & tr & self' & Htr & _ & Hsettled).
  exists s, tr, self'. split; [exact Htr|].
  injection Htr as Hs Htr _.
  destruct (Hsettled
    (Examples.boom_events_before_call
       ++ [ (OpCall StepCall "a" (Raise Examples.boom_exn), Examples.boom_state_at_call);
            (OpSetError "boom", WorkflowState.set_error "boom" Examples.boom_state_at_call) ])
    (WorkflowState.set_completed (WorkflowState.set_error "boom" Examples.boom_state_at_call))
    [ (OpLog (LogEntry.mk "engine" "Error: boom" VNone),
       handled Examples.boom_exn Examples.boom_state_at_call) ])
    as (_ & _ & Hcur & _ & Hdone & _).
  - rewrite <- Htr. vm_compute. reflexivity.
  - split; assumption.
Defined.

(** ** The iteration cap *)

Lemma count_step_calls_app tr1 tr2 :
  count_step_calls (tr1 ++ tr2) = count_step_calls tr1 + count_step_calls tr2.
Proof.
  induction tr1 as [|[o s] tr1 IH]; [done|]. simpl.
  destruct o as [| |[] ? ?| |]; simpl; by rewrite IH.
Qed.

Lemma get_start_node_is_node (g : Graph.t) (nid : string) :
  Graph.get_start_node g = Some nid → dict_mem nid (Graph.nodes g) = true.
Proof.
  unfold Graph.get_start_node. intros H. apply dict_mem_keys.
  destruct (Graph.nodes g) as [|kn ns] eqn:Hns; [done|].
  destruct (filter _ _) as [|x l] eqn:Hf.
  - simpl in H. injection H as <-. by left.
  - injection H as <-.
    assert (x ∈ x :: l) as Hx by left. rewrite <- Hf in Hx.
    by apply list_elem_of_filter in Hx as [_ Hx].
Qed.

Section Caught.
Context (g : Graph.t).

Lemma loop_body_keeps_running current_node_id visited_nodes s :
  keeps_running g current_node_id →
  (∀ next, Graph.edges g !! current_node_id = Some next → next ≠ "") →
  ∃ next visited s' tr,
    WorkflowEngine.loop_body g current_node_id visited_nodes s
    = (Return (Next, Some next, visited), s', tr) ∧
    Graph.edges g !! current_node_id = Some next ∧
    count_step_calls tr = 1.
Proof.
  intros (_ & node & f & next & Hnode & Hty & Hf & Htotal & Hedge) Hnext.
  assert (id_truthy (Some next) = true) as Htruthy.
  { simpl. destruct (String.eqb next "") eqn:E; [|done].
    apply String.eqb_eq in E. by destruct (Hnext next Hedge). }
  destruct (Htotal (state_at_step node current_node_id s)) as (v & s1 & Hcall).
  unfold WorkflowEngine.loop_body. rewrite Hnode, Hf, Hty.
  unfold state_at_step in Hcall.
  unfold bind, call_func, call, set_current_node, log, mutate, get_state. simpl.
  rewrite Hcall. unfold Graph.get_next_node.
  destruct (truthy v); simpl; rewrite Hedge, Htruthy; simpl; by eauto 10.
Qed.

Lemma caught_in_cycle_next current_node_id next :
  caught_in_cycle g current_node_id →
  Graph.edges g !! current_node_id = Some next →
  caught_in_cycle g next.
Proof. intros Hc Hedge nid Hreach. apply Hc. by eapply rtc_l. Qed.

Lemma caught_in_cycle_truthy current_node_id :
  caught_in_cycle g current_node_id → id_truthy (Some current_node_id) = true.
Proof.
  intros Hc. destruct (Hc current_node_id (rtc_refl _ _)) as [Hne _].
  simpl. by apply String.eqb_neq in Hne as ->.
Qed.

Lemma while_loop_caught (fuel : nat) current_node_id visited_nodes (iteration : nat) s :
  caught_in_cycle g current_node_id →
  (iteration ≤ max_iterations)%nat →
  (max_iterations ≤ fuel + iteration)%nat →
  ∃ s' tr,
    WorkflowEngine.while_loop fuel g (Some current_node_id) visited_nodes iteration s
    = (Return max_iterations, s', tr) ∧
    count_step_calls tr = max_iterations - iteration.
Proof.
  revert current_node_id visited_nodes iteration s.
  induction fuel as [|fuel IH]; intros cur vis it s Hc Hle Hfuel.
  - assert (it = max_iterations) as -> by lia.
    simpl. rewrite Nat.ltb_irrefl, andb_false_r. unfold ret.
    do 2 eexists. split; [reflexivity|]. simpl. lia.
  - cbn [WorkflowEngine.while_loop]. rewrite (caught_in_cycle_truthy _ Hc).
    destruct (it <? max_iterations)%nat eqn:Hlt; simpl.
    + apply Nat.ltb_lt in Hlt.
      destruct (loop_body_keeps_running cur vis s (Hc cur (rtc_refl _ _)))
        as (next & vis' & s1 & tr1 & Hbody & Hedge & Hcount).
      { intros next Hedge.
        by destruct (caught_in_cycle_next _ _ Hc Hedge next (rtc_refl _ _)). }
      destruct (IH next vis' (S it) s1 (caught_in_cycle_next _ _ Hc Hedge))
        as (s2 & tr2 & Hloop & Hcount2); [lia..|].
      unfold bind. rewrite Hbody, Hloop. do 2 eexists. split; [reflexivity|].
      rewrite count_step_calls_app. lia.
    + apply Nat.ltb_ge in Hlt. assert (it = max_iterations) as -> by lia.
      unfold ret. do 2 eexists. split; [reflexivity|]. simpl. lia.
Qed.

Lemma execute_caught (start_node : option string) (entry : string) (s0 : WorkflowState.t) :
  entry_node g start_node = Some entry →
  caught_in_cycle g entry →
  ∃ s tr,
    WorkflowEngine.execute g start_node s0 = (Return tt, s, tr) ∧
    WorkflowState.error s = Some "Maximum iterations reached" ∧
    WorkflowState.completed s = true ∧
    count_step_calls tr = max_iterations.
Proof.
  intros Hentry Hc. unfold entry_node in Hentry. unfold WorkflowEngine.execute.
  rewrite Hentry, (caught_in_cycle_truthy _ Hc). simpl.
  unfold bind at 1. unfold log at 1, mutate. rewrite try_block_unfold.
  unfold WorkflowEngine.try_body, bind.
  edestruct (while_loop_caught max_iterations entry ∅ 0) as (s1 & tr1 & -> & Hcount);
    [exact Hc | lia | lia |].
  rewrite Nat.leb_refl. simpl. do 2 eexists. split; [reflexivity|]. simpl.
  split_and!; [done..|].
  rewrite count_step_calls_app, Hcount. cbn [count_step_calls]. lia.
Qed.
End Caught.

(** C5 (the claim as stated fails).  Three graphs whose nodes are all
    standard and whose default edges form the cycle [a -> b -> a], and
    whose runs end after one iteration.  In the first the node [c] lies off
    the cycle: it is the only node without incoming edge, the run is entered
    there and ends, completed and without error, because [c] has no default
    edge.  In the second the step of [a] raises: the run ends with the error
    of the step.  In the third the successor of [a] has the empty string as
    its identity, which the loop test takes for "nothing": the run ends,
    completed and without error. *)
Lemma cycle_run_ends_early :
  (Graph.edges Examples.cycle_aside_graph = {[ "a" := "b"; "b" := "a" ]} ∧
   Forall (fun kn => Node.node_type kn.2 = STANDARD) (Graph.nodes Examples.cycle_aside_graph) ∧
   ∃ s tr self',
     WorkflowEngine.run_graph_traced Examples.cycles_engine "aside" ∅ None None "run-1"
     = (Return (s, tr), self') ∧
     count_step_calls tr = 1 ∧
     WorkflowState.completed s = true ∧ WorkflowState.error s = None) ∧
  (Graph.edges Examples.boom_cycle_graph = {[ "a" := "b"; "b" := "a" ]} ∧
   Forall (fun kn => Node.node_type kn.2 = STANDARD) (Graph.nodes Examples.boom_cycle_graph) ∧
   ∃ s tr self',
     WorkflowEngine.run_graph_traced Examples.cycles_engine "boomcycle" ∅ None None "run-1"
     = (Return (s, tr), self') ∧
     count_step_calls tr = 1 ∧
     WorkflowState.completed s = true ∧ WorkflowState.error s = Some "boom") ∧
  (Graph.edges Examples.empty_id_cycle_graph = {[ "a" := ""; "" := "a" ]} ∧
   Forall (fun kn => Node.node_type kn.2 = STANDARD)
     (Graph.nodes Examples.empty_id_cycle_graph) ∧
   ∃ s tr self',
     WorkflowEngine.run_graph_traced Examples.cycles_engine "emptyid" ∅ None None "run-1"
     = (Return (s, tr), self') ∧
     count_step_calls tr = 1 ∧
     WorkflowState.completed s = true ∧ WorkflowState.error s = None).
Proof.
  split_and!; try (by repeat constructor);
    vm_compute; do 3 eexists; split_and!; reflexivity.
Qed.

(** C5 (amended).  A run that is entered at a node from which every node
    reachable along default edges is a standard node of the graph with a
    non-empty identity, a step that does not raise and a default edge
    executes exactly [max_iterations] = 1000 iterations and then returns,
    marked completed with the error "Maximum iterations reached". *)
Theorem caught_run_hits_iteration_cap (self : WorkflowEngine.t) (graph_id : string)
    (g g' : Graph.t) (initial_state : gmap string value) (start_node : option string)
    (reg : option ToolRegistry.t) (uuid : string) (entry : string) :
  WorkflowEngine.graphs self !! graph_id = Some g →
  Graph.resolve_functions g reg = (Return tt, g') →
  entry_node g' start_node = Some entry →
  caught_in_cycle g' entry →
  ∃ s tr self',
    WorkflowEngine.run_graph_traced self graph_id initial_state start_node reg uuid
    = (Return (s, tr), self') ∧
    WorkflowEngine.run_graph self graph_id initial_state start_node reg uuid
    = (Return s, self') ∧
    count_step_calls tr = 1000 ∧
    WorkflowState.completed s = true ∧
    WorkflowState.error s = Some "Maximum iterations reached".
Proof.
  intros Hg Hres Hentry Hcaught.
  destruct (execute_caught g' start_node entry (WorkflowState.new initial_state uuid)
              Hentry Hcaught)
    as (s & tr & Hexec & Herr & Hdone & Hcount).
  pose proof (run_graph_traced_resolved _ _ _ _ _ _ _ _ _ _ Hg Hres Hexec) as Hrun.
  do 3 eexists. split; [exact Hrun|]. split_and!; try done.
  unfold WorkflowEngine.run_graph. by rewrite Hrun.
Qed.

(** A run of the resolved two-node cycle entered at [a] is caught. *)
Lemma cycle_graph_caught : caught_in_cycle Examples.cycle_graph_resolved "a".
Proof.
  intros nid Hreach.
  assert (nid = "a" ∨ nid = "b") as Hnid.
  { revert nid Hreach. apply rtc_ind_r; [by left|].
    intros y z _ Hedge [->| ->]; unfold default_edge in Hedge;
      vm_compute in Hedge; injection Hedge as <-; auto. }
  destruct Hnid as [->| ->]; (split; [discriminate|]);
    do 3 eexists; (split_and!; [reflexivity..| |reflexivity]);
    intros s; by do 2 eexists.
Qed.

Lemma caught_run_hits_iteration_cap_witness :
  ∃ s self',
    WorkflowEngine.run_graph Examples.engine "cycle" ∅ None (Some Examples.registry) "run-1"
    = (Return s, self') ∧
    WorkflowState.completed s = true ∧
    WorkflowState.error s = Some "Maximum iterations reached".
Proof.
  destruct (caught_run_hits_iteration_cap Examples.engine "cycle" Examples.cycle_graph
              Examples.cycle_graph_resolved ∅ None (Some Examples.registry) "run-1" "a"
              eq_refl eq_refl eq_refl cycle_graph_caught)
    as (s & tr & self' & _ & Hrun & _ & Hdone & Herr).
  exists s, self'. split; [exact Hrun|]. split; [exact Hdone | exact Herr].
Defined.

(** ** A natural end in the last allowed iteration *)

(** The run of [countdown_graph] comes to its natural end in its 1000th
    iteration: the engine logs "Workflow completed" and sets the flag, and
    the test of the cap after the loop then overwrites the error field. *)
Example natural_end_at_cap :
  ∃ s self',
    WorkflowEngine.run_graph Examples.engine "countdown" ∅ None None "run-1"
    = (Return s, self') ∧
    WorkflowState.completed s = true ∧
    WorkflowState.error s = Some "Maximum iterations reached" ∧
    last (WorkflowState.execution_log s)
    = Some (LogEntry.mk "engine" "Workflow completed" VNone) ∧
    WorkflowState.data s = {[ "n" := VInt 999 ]}.
Proof. vm_compute. do 2 eexists. split_and!; reflexivity. Qed.

(** * Further properties *)

(** ** Building graphs: [create_graph], [add_node], [add_edge] *)

Section OrderedDictMore.
Context {V : Type}.
Implicit Types (d : list (string * V)) (k : string) (v : V).

Lemma dict_mem_set k j v d :
  dict_mem j (dict_set k v d) = true ↔ j = k ∨ dict_mem j d = true.
Proof.
  unfold dict_mem. destruct (decide (j = k)) as [->|Hne].
  - rewrite dict_get_set_eq. naive_solver.
  - rewrite dict_get_set_ne by done. naive_solver.
Qed.

Lemma dict_keys_set_absent k v d :
  dict_mem k d = false → dict_keys (dict_set k v d) = dict_keys d ++ [k].
Proof.
  unfold dict_mem, dict_keys. induction d as [|[k' v'] d IH]; simpl; [done|].
  destruct (String.eqb k k') eqn:E; simpl; [done|].
  intros H. by rewrite IH.
Qed.
End OrderedDictMore.

Lemma NodeType_of_string_class s e :
  NodeType_of_string s = Raise e → exn_class e = "ValueError".
Proof.
  unfold NodeType_of_string. repeat case_match; try done. by intros [= <-].
Qed.

Lemma add_edge_class g a b e :
  Graph.add_edge g a b = Raise e → exn_class e = "ValueError".
Proof. unfold Graph.add_edge. repeat case_match; try done; by intros [= <-]. Qed.

Lemma add_edge_returns g a b g' :
  Graph.add_edge g a b = Return g' ↔
  dict_mem a (Graph.nodes g) = true ∧ dict_mem b (Graph.nodes g) = true ∧
  g' = Graph.mk (Graph.graph_id g) (Graph.nodes g) (<[a := b]> (Graph.edges g))
         (Graph.tool_registry g).
Proof.
  unfold Graph.add_edge.
  destruct (dict_mem a (Graph.nodes g)), (dict_mem b (Graph.nodes g)); simpl; naive_solver.
Qed.

Lemma add_edge_valid g a b g' :
  Graph.add_edge g a b = Return g' → edges_valid g → edges_valid g'.
Proof.
  intros (Ha & Hb & ->)%add_edge_returns Hg x y. simpl.
  destruct (decide (a = x)) as [<-|Hne].
  - rewrite lookup_insert_eq. by intros [= <-].
  - rewrite lookup_insert_ne by done. apply Hg.
Qed.

Lemma add_node_valid g node_id name func ty cf lf :
  edges_valid g → edges_valid (Graph.add_node g node_id name func ty cf lf).
Proof.
  intros Hg a b Hab. simpl in *. destruct (Hg a b Hab) as [Ha Hb].
  rewrite !dict_mem_set. by auto.
Qed.

(** The nodes loop: what it accepts and what it builds. *)
Lemma create_nodes_returns_iff g nodes :
  (∃ g', WorkflowEngine.create_nodes g nodes = Return g') ↔
  Forall (fun nd => valid_def nd.2) nodes.
Proof.
  revert g. induction nodes as [|[k d] nodes IH]; intros g; simpl.
  - split; [constructor | by eauto].
  - rewrite Forall_cons. unfold valid_def at 1. simpl.
    destruct (pyobj_truthy (NodeDef.func d)); simpl; [|naive_solver].
    destruct (NodeType_of_string _) as [ty|e]; [|naive_solver].
    rewrite IH. naive_solver.
Qed.

Lemma create_nodes_class g nodes e :
  WorkflowEngine.create_nodes g nodes = Raise e → exn_class e = "ValueError".
Proof.
  revert g. induction nodes as [|[k d] nodes IH]; intros g; simpl; [done|].
  destruct (pyobj_truthy (NodeDef.func d)); simpl; [|by intros [= <-]].
  destruct (NodeType_of_string _) as [ty|e'] eqn:Hty.
  - apply IH.
  - intros [= <-]. by eapply NodeType_of_string_class.
Qed.

Lemma create_nodes_spec g nodes g' :
  WorkflowEngine.create_nodes g nodes = Return g' →
  NoDup (dict_keys (Graph.nodes g) ++ nodes.*1) →
  Graph.graph_id g' = Graph.graph_id g ∧
  Graph.edges g' = Graph.edges g ∧
  Graph.tool_registry g' = Graph.tool_registry g ∧
  dict_keys (Graph.nodes g') = dict_keys (Graph.nodes g) ++ nodes.*1 ∧
  (edges_valid g → edges_valid g') ∧
  ∀ k d, (k, d) ∈ nodes →
    ∃ ty, NodeType_of_string (default "standard" (NodeDef.type d)) = Return ty ∧
          dict_get k (Graph.nodes g') = Some (node_of_def k d ty).
Proof.
  revert g. induction nodes as [|[k d] nodes IH]; intros g; simpl.
  - intros [= <-] _. rewrite app_nil_r. split_and!; try done.
    intros k d Hin. by apply elem_of_nil in Hin.
  - destruct (pyobj_truthy (NodeDef.func d)); simpl; [|done].
    destruct (NodeType_of_string _) as [ty|e] eqn:Hty; [|done].
    intros Hrec Hnd.
    assert (dict_mem k (Graph.nodes g) = false) as Hfresh.
    { destruct (dict_mem k (Graph.nodes g)) eqn:Hm; [|done].
      apply dict_mem_keys in Hm. apply NoDup_app in Hnd as (_ & Hdis & _).
      exfalso. apply (Hdis k Hm). left. }
    set (g1 := Graph.add_node g k _ _ _ _ _) in Hrec.
    assert (dict_keys (Graph.nodes g1) = dict_keys (Graph.nodes g) ++ [k]) as Hkeys1.
    { by apply dict_keys_set_absent. }
    destruct (IH g1 Hrec) as (Hid & Hed & Hreg & Hkeys & Hvalid & Hnodes).
    { rewrite Hkeys1, <- app_assoc. done. }
    split_and!; try done.
    + rewrite Hkeys, Hkeys1, <- app_assoc. done.
    + intros Hg. apply Hvalid. by apply add_node_valid.
    + intros k' d' [[= -> ->]|Hin]%elem_of_cons; [|by apply Hnodes].
      exists ty. split; [done|].
      (* the node added first is not overwritten by the later ones *)
      clear IH Hid Hed Hreg Hvalid Hnodes Hkeys.
      assert (k ∉ nodes.*1) as Hk.
      { apply NoDup_app in Hnd as (_ & _ & Hn). simpl in Hn.
        by apply NoDup_cons in Hn as [Hn _]. }
      assert (dict_get k (Graph.nodes g1) = Some (node_of_def k d ty)) as Hget1.
      { apply dict_get_set_eq. }
      clearbody g1. clear Hkeys1 Hfresh Hnd Hty.
      revert g1 Hrec Hget1. induction nodes as [|[k2 d2] nodes IHn]; intros g1; simpl.
      * by intros [= <-].
      * destruct (pyobj_truthy (NodeDef.func d2)); simpl; [|done].
        destruct (NodeType_of_string _) as [ty2|e2]; [|done].
        intros Hrec Hget1. apply not_elem_of_cons in Hk as [Hne Hk].
        eapply IHn; [done | exact Hrec |]. simpl.
        by rewrite dict_get_set_ne.
Qed.

(** The edges loop: what it accepts and what it builds. *)
Lemma create_edges_spec g edges g' :
  WorkflowEngine.create_edges g edges = Return g' ↔
  Forall (edge_declared (dict_keys (Graph.nodes g))) edges ∧
  g' = Graph.mk (Graph.graph_id g) (Graph.nodes g)
         (foldl (fun m e => <[e.1 := e.2]> m) (Graph.edges g) edges)
         (Graph.tool_registry g).
Proof.
  revert g. induction edges as [|[a b] edges IH]; intros g; simpl.
  - split.
    + intros [= <-]. split; [constructor | by destruct g].
    + intros [_ ->]. by destruct g.
  - rewrite Forall_cons. unfold edge_declared at 1. simpl.
    rewrite <- !dict_mem_keys.
    destruct (Graph.add_edge g a b) as [g1|e] eqn:Hadd.
    + apply add_edge_returns in Hadd as (Ha & Hb & ->). rewrite IH. simpl. naive_solver.
    + split; [done|]. intros [[[Ha Hb] _] _].
      assert (Graph.add_edge g a b = Return
                (Graph.mk (Graph.graph_id g) (Graph.nodes g) (<[a := b]> (Graph.edges g))
                   (Graph.tool_registry g))) as Hok.
      { apply add_edge_returns. split_and!; [exact Ha | exact Hb | reflexivity]. }
      congruence.
Qed.

Lemma create_edges_class g edges e :
  WorkflowEngine.create_edges g edges = Raise e → exn_class e = "ValueError".
Proof.
  revert g. induction edges as [|[a b] edges IH]; intros g; simpl; [done|].
  destruct (Graph.add_edge g a b) as [g1|e'] eqn:Hadd; [apply IH|].
  intros [= <-]. by eapply add_edge_class.
Qed.

Lemma create_edges_valid g edges g' :
  WorkflowEngine.create_edges g edges = Return g' → edges_valid g → edges_valid g'.
Proof.
  revert g. induction edges as [|[a b] edges IH]; intros g; simpl.
  - by intros [= <-].
  - destruct (Graph.add_edge g a b) as [g1|e] eqn:Hadd; [|done].
    intros Hrec Hg. eapply IH; [done|]. by eapply add_edge_valid.
Qed.

(** Assignments to a dict in the order of a list of items without repeated
    keys: the dict then maps exactly the items, and the old entries under
    other keys. *)
Lemma foldl_insert_lookup {V} (l : list (string * V)) (m : gmap string V) a b :
  NoDup l.*1 →
  (foldl (fun m e => <[e.1 := e.2]> m) m l) !! a = Some b ↔
  (a, b) ∈ l ∨ ((a ∉ l.*1) ∧ m !! a = Some b).
Proof.
  revert m. induction l as [|[x y] l IH]; intros m Hnd; simpl.
  - split.
    + intros H. right. split; [|done]. simpl. by intros ?%elem_of_nil.
    + intros [H|[_ H]]; [by apply elem_of_nil in H | done].
  - apply NoDup_cons in Hnd as [Hx Hnd]. rewrite IH by done. simpl.
    rewrite elem_of_cons, not_elem_of_cons. split.
    + intros [H|[Ha H]]; [by auto|].
      destruct (decide (x = a)) as [->|Hne].
      * rewrite lookup_insert_eq in H. injection H as ->. by auto.
      * rewrite lookup_insert_ne in H by done. by auto.
    + intros [[[= -> ->]|H]|[[Hne Ha] H]]; [|by auto|].
      * right. split; [done|]. by rewrite lookup_insert_eq.
      * right. split; [done|]. by rewrite lookup_insert_ne.
Qed.

Lemma create_nodes_mem g nodes g' k :
  WorkflowEngine.create_nodes g nodes = Return g' →
  dict_mem k (Graph.nodes g') = true ↔ dict_mem k (Graph.nodes g) = true ∨ k ∈ nodes.*1.
Proof.
  revert g. induction nodes as [|[k1 d] nodes IH]; intros g; simpl.
  - intros [= <-]. rewrite elem_of_nil. naive_solver.
  - destruct (pyobj_truthy (NodeDef.func d)); simpl; [|done].
    destruct (NodeType_of_string _) as [ty|e]; [|done].
    intros Hrec. rewrite (IH _ Hrec). simpl. rewrite dict_mem_set, elem_of_cons.
    naive_solver.
Qed.

(** [create_graph] returns the graph identity exactly when every node
    definition has a truthy [func] and a valid type and both ends of every
    edge are declared nodes; otherwise it raises a [ValueError] and the
    engine is left as it was. *)
Theorem create_graph_accepts (self : WorkflowEngine.t) (graph_id : string)
    (nodes : list (string * NodeDef.t)) (edges : list (string * string)) :
  ((∃ self', WorkflowEngine.create_graph self graph_id nodes edges = (Return graph_id, self'))
   ↔ Forall (fun nd => valid_def nd.2) nodes ∧ Forall (edge_declared nodes.*1) edges) ∧
  (∀ r self', WorkflowEngine.create_graph self graph_id nodes edges = (r, self') →
     r = Return graph_id ∨ ∃ e, r = Raise e ∧ exn_class e = "ValueError" ∧ self' = self).
Proof.
  unfold WorkflowEngine.create_graph. split.
  - destruct (WorkflowEngine.create_nodes (Graph.new graph_id) nodes) as [g|e] eqn:Hnodes.
    + assert (Forall (fun nd => valid_def nd.2) nodes) as Hvalid.
      { apply (create_nodes_returns_iff (Graph.new graph_id)). by eauto. }
      assert (∀ e, edge_declared (dict_keys (Graph.nodes g)) e ↔ edge_declared nodes.*1 e)
        as Hdecl.
      { intros [a b]. unfold edge_declared. simpl. rewrite <- !dict_mem_keys.
        rewrite !(create_nodes_mem _ _ _ _ Hnodes). simpl. unfold dict_mem. simpl.
        naive_solver. }
      destruct (WorkflowEngine.create_edges g edges) as [g'|e] eqn:Hedges.
      * apply create_edges_spec in Hedges as [Hall _]. split; [|by eauto].
        intros _. split; [done|]. eapply Forall_impl; [exact Hall|]. intros e. apply Hdecl.
      * split; [by intros [? [=]]|]. intros [_ Hall]. exfalso.
        assert (WorkflowEngine.create_edges g edges = Return
                  (Graph.mk (Graph.graph_id g) (Graph.nodes g)
                     (foldl (fun m e => <[e.1 := e.2]> m) (Graph.edges g) edges)
                     (Graph.tool_registry g))) as Hok.
        { apply create_edges_spec. split; [|done].
          eapply Forall_impl; [exact Hall|]. intros e'. apply Hdecl. }
        congruence.
    + split; [by intros [? [=]]|]. intros [Hvalid _]. exfalso.
      apply (create_nodes_returns_iff (Graph.new graph_id)) in Hvalid as [g Hg]. congruence.
  - intros r self'.
    destruct (WorkflowEngine.create_nodes (Graph.new graph_id) nodes) as [g|e] eqn:Hnodes.
    + destruct (WorkflowEngine.create_edges g edges) as [g'|e] eqn:Hedges.
      * intros [= <- <-]. by left.
      * intros [= <- <-]. right. exists e. split_and!; try done.
        by eapply create_edges_class.
    + intros [= <- <-]. right. exists e. split_and!; try done.
      by eapply create_nodes_class.
Qed.

Lemma create_graph_result (self self' : WorkflowEngine.t) (graph_id : string)
    (nodes : list (string * NodeDef.t)) (edges : list (string * string)) r :
  WorkflowEngine.create_graph self graph_id nodes edges = (Return r, self') →
  NoDup nodes.*1 →
  r = graph_id ∧
  WorkflowEngine.runs self' = WorkflowEngine.runs self ∧
  (∀ other, other ≠ graph_id →
     WorkflowEngine.graphs self' !! other = WorkflowEngine.graphs self !! other) ∧
  ∃ g,
    WorkflowEngine.graphs self' !! graph_id = Some g ∧
    Graph.graph_id g = graph_id ∧
    Graph.tool_registry g = None ∧
    dict_keys (Graph.nodes g) = nodes.*1 ∧
    (∀ k d, (k, d) ∈ nodes →
       ∃ ty, NodeType_of_string (default "standard" (NodeDef.type d)) = Return ty ∧
             dict_get k (Graph.nodes g) = Some (node_of_def k d ty)) ∧
    edges_valid g ∧
    (NoDup edges.*1 → ∀ a b, Graph.edges g !! a = Some b ↔ (a, b) ∈ edges).
Proof.
  unfold WorkflowEngine.create_graph. intros Hrun Hnd.
  destruct (WorkflowEngine.create_nodes (Graph.new graph_id) nodes) as [g|e] eqn:Hnodes;
    [|by injection Hrun].
  destruct (WorkflowEngine.create_edges g edges) as [g'|e] eqn:Hedges; [|by injection Hrun].
  injection Hrun as <- <-. simpl.
  destruct (create_nodes_spec _ _ _ Hnodes) as (Hid & Hed & Hreg & Hkeys & Hvalid & Hdefs).
  { done. }
  pose proof (create_edges_valid _ _ _ Hedges) as Hvalid'.
  apply create_edges_spec in Hedges as [_ ->].
  split_and!; try done.
  { intros other Hne. by rewrite lookup_insert_ne. }
  eexists. rewrite lookup_insert_eq. split; [reflexivity|]. simpl.
  split_and!; try done.
  - apply Hvalid', Hvalid. intros a b. simpl. by rewrite lookup_empty.
  - intros Hnde a b. rewrite Hed. simpl. rewrite foldl_insert_lookup by done.
    rewrite lookup_empty. naive_solver.
Qed.

(** What a successful [create_graph] registers, for node definitions given
    under distinct identities: the nodes in the order of their declaration,
    each built from its definition; edges that join declared nodes (exactly
    the given ones when no source is repeated); no tool registry yet.  The
    other graphs and the runs are untouched; a graph registered before
    under the same identity is replaced. *)
Theorem create_graph_registers (self self' : WorkflowEngine.t) (graph_id : string)
    (nodes : list (string * NodeDef.t)) (edges : list (string * string)) r :
  WorkflowEngine.create_graph self graph_id nodes edges = (Return r, self') →
  NoDup nodes.*1 →
  r = graph_id ∧
  WorkflowEngine.runs self' = WorkflowEngine.runs self ∧
  (∀ other, other ≠ graph_id →
     WorkflowEngine.graphs self' !! other = WorkflowEngine.graphs self !! other) ∧
  ∃ g,
    WorkflowEngine.graphs self' !! graph_id = Some g ∧
    Graph.graph_id g = graph_id ∧
    Graph.tool_registry g = None ∧
    dict_keys (Graph.nodes g) = nodes.*1 ∧
    (∀ k d, (k, d) ∈ nodes →
       ∃ ty, NodeType_of_string (default "standard" (NodeDef.type d)) = Return ty ∧
             dict_get k (Graph.nodes g) = Some (node_of_def k d ty)) ∧
    edges_valid g ∧
    (NoDup edges.*1 → ∀ a b, Graph.edges g !! a = Some b ↔ (a, b) ∈ edges).
Proof. exact (create_graph_result self self' graph_id nodes edges r). Qed.

(** ** The step loop, path by path *)

(** Symbolic execution of one iteration: every path through [loop_body]
    becomes a goal about the explicit result of that path. *)
Ltac run_body :=
  unfold WorkflowEngine.loop_body, bind, call_func, call, in_nodes, set_current_node,
    set_error, set_completed, log, mutate, get_state, ret, raise in *;
  repeat (simpl in *; case_match; simplify_eq).

Lemma count_step_calls_loop_body g cur vis s :
  (count_step_calls (WorkflowEngine.loop_body g cur vis s).2 ≤ 1)%nat.
Proof. run_body; simpl; lia. Qed.

Lemma count_step_calls_while_loop (fuel : nat) g cur vis (iteration : nat) s :
  (count_step_calls (WorkflowEngine.while_loop fuel g cur vis iteration s).2
   ≤ max_iterations - iteration)%nat.
Proof.
  revert cur vis iteration s. induction fuel as [|fuel IH]; intros cur vis it s.
  - cbn [WorkflowEngine.while_loop]. destruct (_ && _); unfold ret; cbn [snd count_step_calls]; lia.
  - rewrite while_loop_S.
    destruct (id_truthy cur); cbn [andb]; [|unfold ret; cbn [snd count_step_calls]; lia].
    destruct (it <? max_iterations)%nat eqn:Hlt; [|unfold ret; cbn [snd count_step_calls]; lia].
    apply Nat.ltb_lt in Hlt. unfold bind.
    pose proof (count_step_calls_loop_body g (default "" cur) vis s) as Hbody.
    destruct (WorkflowEngine.loop_body g _ vis s) as [[[[[[] next] vis']|e] s1] tr1];
      cbn [snd] in *.
    + specialize (IH next vis' (S it) s1).
      destruct (WorkflowEngine.while_loop fuel g next vis' (S it) s1) as [[r2 s2] tr2].
      cbn [snd] in *. rewrite count_step_calls_app. lia.
    + unfold ret. cbn [snd]. rewrite app_nil_r. lia.
    + lia.
Qed.

Lemma count_step_calls_execute g start_node s0 :
  (count_step_calls (WorkflowEngine.execute g start_node s0).2 ≤ max_iterations)%nat.
Proof.
  unfold WorkflowEngine.execute. destruct (negb _).
  { unfold max_iterations. simpl. lia. }
  unfold bind at 1. unfold log at 1, mutate. rewrite try_block_unfold.
  unfold WorkflowEngine.try_body, bind.
  pose proof (count_step_calls_while_loop max_iterations g
    (if id_truthy start_node then start_node else Graph.get_start_node g) ∅ 0
    (WorkflowState.log "engine"
       ("Starting workflow from node: "
        +:+ default "" (if id_truthy start_node then start_node else Graph.get_start_node g))
       VNone s0)) as Hloop.
  destruct (WorkflowEngine.while_loop _ _ _ _ _ _) as [[[it|e] sW] trW]; cbn [snd] in Hloop.
  - destruct (max_iterations <=? it)%nat;
      unfold set_error, set_completed, mutate, ret; simpl;
      rewrite count_step_calls_app; simpl; lia.
  - simpl. rewrite count_step_calls_app. simpl. lia.
Qed.

(** Every run invokes at most 1000 step callables, whatever the graph and
    the callables are. *)
Theorem run_graph_step_bound (self self' : WorkflowEngine.t) (graph_id : string)
    (initial_state : gmap string value) (start_node : option string)
    (reg : option ToolRegistry.t) (uuid : string) (s : WorkflowState.t) (tr : list event) :
  WorkflowEngine.run_graph_traced self graph_id initial_state start_node reg uuid
  = (Return (s, tr), self') →
  (count_step_calls tr ≤ 1000)%nat.
Proof.
  unfold WorkflowEngine.run_graph_traced.
  destruct (WorkflowEngine.graphs self !! graph_id) as [g|]; [|done].
  destruct (Graph.resolve_functions g reg) as [[[]|e] g1]; [|done].
  pose proof (count_step_calls_execute g1 start_node (WorkflowState.new initial_state uuid))
    as Hcount.
  destruct (WorkflowEngine.execute _ _ _) as [[[[]|e] s1] tr1]; [|done].
  intros [= <- <- <-]. exact Hcount.
Qed.

Lemma run_graph_step_bound_witness :
  ∃ s tr self',
    WorkflowEngine.run_graph_traced Examples.engine "single" ∅ None None "run-1"
    = (Return (s, tr), self') ∧
    (count_step_calls tr ≤ 1000)%nat.
Proof.
  do 3 eexists. split; [reflexivity|].
  exact (run_graph_step_bound Examples.engine _ "single" ∅ None None "run-1" _ _ eq_refl).
Defined.

Lemma loop_body_stays_in_graph g cur vis s r s' tr :
  edges_valid g →
  dict_mem cur (Graph.nodes g) = true →
  WorkflowEngine.loop_body g cur vis s = (r, s', tr) →
  Forall (fun ev => ¬ sets_error ev.1) tr ∧
  ∀ fl next vis', r = Return (fl, next, vis') → id_truthy next = true →
     dict_mem (default "" next) (Graph.nodes g) = true.
Proof.
  intros Hg Hmem Hrun. unfold dict_mem in Hmem. run_body.
  all: split; [repeat constructor; by intros []|].
  all: intros fl next vis' ? ?; simplify_eq; simpl in *; try done.
  all: unfold Graph.get_next_node in *.
  all: destruct (Graph.edges g !! cur) as [nx|] eqn:Hnx; [|done].
  all: by apply (Hg cur nx).
Qed.

(** In a graph whose edges join declared nodes, the step loop entered at a
    declared node never sets the error field: its "not found in graph"
    branch is not taken. *)
Theorem step_loop_stays_in_graph (fuel : nat) (g : Graph.t) (cur : option string)
    (vis : gset string) (iteration : nat) (s : WorkflowState.t) :
  edges_valid g →
  (id_truthy cur = true → dict_mem (default "" cur) (Graph.nodes g) = true) →
  Forall (fun ev => ¬ sets_error ev.1)
         (WorkflowEngine.while_loop fuel g cur vis iteration s).2.
Proof.
  intros Hg. revert cur vis iteration s.
  induction fuel as [|fuel IH]; intros cur vis it s Hcur.
  - cbn [WorkflowEngine.while_loop]. destruct (_ && _); constructor.
  - rewrite while_loop_S. destruct (id_truthy cur) eqn:Htruthy; [|constructor].
    destruct (it <? max_iterations)%nat; [|constructor]. cbn [andb]. unfold bind.
    destruct (WorkflowEngine.loop_body g (default "" cur) vis s) as [[r s1] tr1] eqn:Hbody.
    destruct (loop_body_stays_in_graph _ _ _ _ _ _ _ Hg (Hcur eq_refl) Hbody)
      as [Hquiet Hnext].
    destruct r as [[[[] next] vis']|e]; [| |done].
    + specialize (IH next vis' (S it) s1 (Hnext _ _ _ eq_refl)).
      destruct (WorkflowEngine.while_loop fuel g next vis' (S it) s1) as [[r2 s2] tr2].
      by apply Forall_app.
    + unfold ret. by rewrite app_nil_r.
Qed.

Lemma cycle_graph_edges_valid : edges_valid Examples.cycle_graph_resolved.
Proof.
  intros a b. unfold Examples.cycle_graph_resolved, Examples.cycle_graph,
    Examples.add_edge_or_same. simpl.
  destruct (decide (a = "b")) as [->|Hb].
  { rewrite lookup_insert_eq. by intros [= <-]. }
  rewrite lookup_insert_ne by done.
  destruct (decide (a = "a")) as [->|Ha].
  { rewrite lookup_insert_eq. by intros [= <-]. }
  rewrite lookup_insert_ne by done. by rewrite lookup_empty.
Qed.

Lemma step_loop_stays_in_graph_witness :
  Forall (fun ev => ¬ sets_error ev.1)
         (WorkflowEngine.while_loop 3 Examples.cycle_graph_resolved (Some "a") ∅ 0
            (WorkflowState.new ∅ "run-1")).2.
Proof.
  apply step_loop_stays_in_graph.
  - exact cycle_graph_edges_valid.
  - reflexivity.
Defined.

(** A node that lacks the callable its type asks for (a loop node without
    continuation callable, a conditional node without routing callable, a
    node whose callable belongs to the other type) is handled like a
    standard node: no routing callable is invoked and the next node is the
    default successor. *)
Theorem unrouted_node_follows_default_edge (g : Graph.t) (cur : string) (node : Node.t)
    (step : callable) (vis : gset string) (s s1 : WorkflowState.t) (result : value) :
  dict_get cur (Graph.nodes g) = Some node →
  Node.func node = FCallable step →
  step (state_at_step node cur s) = (Return result, s1) →
  ¬ routed node →
  next_of (WorkflowEngine.loop_body g cur vis s) = Some (Graph.edges g !! cur) ∧
  Forall (fun ev => ¬ routing_call ev.1) (WorkflowEngine.loop_body g cur vis s).2.
Proof.
  intros Hnode Hfunc Hstep Hrouted. unfold state_at_step in Hstep.
  assert (match Node.node_type node, Node.loop_condition_func node with
          | LOOP, Some _ => False | _, _ => True end) as Hloop.
  { destruct (Node.node_type node) eqn:Hty, (Node.loop_condition_func node) eqn:Hlf;
      try done. apply Hrouted. left. by eauto. }
  assert (match Node.node_type node, Node.condition_func node with
          | CONDITIONAL, Some _ => False | _, _ => True end) as Hcond.
  { destruct (Node.node_type node) eqn:Hty, (Node.condition_func node) eqn:Hcf;
      try done. apply Hrouted. right. by eauto. }
  unfold WorkflowEngine.loop_body. rewrite Hnode, Hfunc.
  unfold bind, call_func, call, set_current_node, log, mutate, get_state, ret,
    set_completed, Graph.get_next_node. simpl. rewrite Hstep.
  destruct (Node.node_type node), (Node.loop_condition_func node),
    (Node.condition_func node); try done;
    destruct (truthy result); simpl;
    destruct (id_truthy (Graph.edges g !! cur)); simpl;
    (split; [reflexivity | repeat constructor; by intros []]).
Qed.

(** A loop node without continuation callable whose default edge leads back
    to itself: the edge is followed. *)
Lemma unrouted_node_follows_default_edge_witness :
  next_of (WorkflowEngine.loop_body Examples.unrouted_loop_graph "L" ∅
             (WorkflowState.new ∅ "run-1"))
  = Some (Some "L").
Proof.
  refine (proj1 (unrouted_node_follows_default_edge Examples.unrouted_loop_graph "L"
            (Node.mk "L" "Loop" (FCallable Examples.noop) LOOP (Some (Examples.goto "x")) None)
            Examples.noop ∅ (WorkflowState.new ∅ "run-1") _ VNone
            eq_refl eq_refl eq_refl _)).
  intros [[_ [f Hf]]|[Hty _]]; discriminate.
Defined.

(** A loop node whose continuation callable answers true passes on the
    default successor of the node, also when there is none: the iteration
    ends with [continue], so the engine neither logs "Workflow completed"
    nor sets the completion flag. *)
Theorem loop_continue_follows_default_edge (g : Graph.t) (cur : string) (node : Node.t)
    (step loop_condition_func : callable) (vis : gset string)
    (s s1 s2 : WorkflowState.t) (result v : value) :
  dict_get cur (Graph.nodes g) = Some node →
  Node.func node = FCallable step →
  Node.node_type node = LOOP →
  Node.loop_condition_func node = Some loop_condition_func →
  step (state_at_step node cur s) = (Return result, s1) →
  loop_condition_func (state_after_step node result s1) = (Return v, s2) →
  truthy v = true →
  ∃ tr,
    WorkflowEngine.loop_body g cur vis s
    = (Return (Next, Graph.edges g !! cur, vis),
       WorkflowState.log (Node.id node) "Loop condition met, continuing loop" VNone s2,
       tr) ∧
    open_trace tr ∧
    (OpLog (LogEntry.mk "engine" "Workflow completed" VNone),
     WorkflowState.log (Node.id node) "Loop condition met, continuing loop" VNone s2) ∉ tr.
Proof.
  intros Hnode Hfunc Hty Hlf Hstep Hcall Hv. unfold WorkflowEngine.loop_body.
  rewrite Hnode, Hfunc, Hty, Hlf. unfold state_at_step, state_after_step in *.
  unfold bind, call_func, call, set_current_node, log, mutate, get_state, ret,
    Graph.get_next_node. simpl.
  rewrite Hstep. destruct (truthy result); simpl; rewrite Hcall, Hv; simpl;
    (eexists; split; [reflexivity|]; split;
     [repeat constructor; by intros [=]
     | rewrite !elem_of_cons, elem_of_nil; intros H; decompose [or] H;
       try done; simpl in *; discriminate]).
Qed.

Lemma loop_continue_follows_default_edge_witness :
  next_of (WorkflowEngine.loop_body Examples.loop_again_graph "L" ∅
             (WorkflowState.new ∅ "run-1"))
  = Some None.
Proof.
  destruct (loop_continue_follows_default_edge Examples.loop_again_graph
              "L" (Node.mk "L" "Loop" (FCallable Examples.noop) LOOP None
                     (Some (Examples.goto "again")))
              Examples.noop (Examples.goto "again") ∅ (WorkflowState.new ∅ "run-1")
              _ _ VNone (VStr "again")
              eq_refl eq_refl eq_refl eq_refl eq_refl eq_refl eq_refl) as (tr & -> & _).
  reflexivity.
Defined.

(** ** Resolution of step references *)

Lemma resolvable_or_not reg node : resolvable reg node ∨ ¬ resolvable reg node.
Proof.
  unfold resolvable.
  destruct (Node.func node) as [fname|f|]; [|by left|right; tauto].
  destruct reg as [r|]; [|right; by intros (r & [=] & _)].
  destruct (ToolRegistry.has_tool r fname) eqn:Hhas; [left; by eauto|].
  right. intros (r' & [= <-] & H). congruence.
Qed.

Lemma resolve_nodes_step reg k node rest :
  resolvable reg node →
  Graph.resolve_nodes reg ((k, node) :: rest)
  = ((Graph.resolve_nodes reg rest).1,
     (k, resolve_node reg node) :: (Graph.resolve_nodes reg rest).2).
Proof.
  unfold resolvable, resolve_node. simpl.
  destruct (Node.func node) as [fname|f|] eqn:Hf; [| |done].
  - intros (r & -> & Hhas). rewrite Hhas.
    unfold ToolRegistry.has_tool in Hhas. unfold ToolRegistry.get_tool.
    destruct (ToolRegistry.tools r !! fname) as [f|]; [|done].
    by destruct (Graph.resolve_nodes (Some r) rest).
  - intros _. by destruct (Graph.resolve_nodes reg rest).
Qed.

Lemma resolve_nodes_stop reg k node rest :
  ¬ resolvable reg node →
  Graph.resolve_nodes reg ((k, node) :: rest)
  = (Raise (resolve_error node), (k, node) :: rest).
Proof.
  unfold resolvable, resolve_error. simpl.
  destruct (Node.func node) as [fname|f|] eqn:Hf; [|tauto|done].
  destruct reg as [r|]; [|done].
  destruct (ToolRegistry.has_tool r fname) eqn:Hhas; [|done].
  intros H. exfalso. apply H. by eauto.
Qed.

Lemma resolve_nodes_all reg ns :
  Forall (fun kn => resolvable reg kn.2) ns →
  Graph.resolve_nodes reg ns = (Return tt, (fun kn => (kn.1, resolve_node reg kn.2)) <$> ns).
Proof.
  induction 1 as [|[k node] ns Hn _ IH]; [done|].
  rewrite resolve_nodes_step by done. by rewrite IH.
Qed.

Lemma resolve_nodes_first_failure reg pre k node post :
  Forall (fun kn => resolvable reg kn.2) pre →
  ¬ resolvable reg node →
  Graph.resolve_nodes reg (pre ++ (k, node) :: post)
  = (Raise (resolve_error node),
     ((fun kn => (kn.1, resolve_node reg kn.2)) <$> pre) ++ (k, node) :: post).
Proof.
  intros Hpre Hnode. induction Hpre as [|[k0 n0] pre Hn _ IH]; simpl app.
  - by apply resolve_nodes_stop.
  - rewrite resolve_nodes_step by done. by rewrite IH.
Qed.

Lemma resolve_functions_returns (g g' : Graph.t) (reg : option ToolRegistry.t) :
  Graph.resolve_functions g reg = (Return tt, g') ↔
  Forall (fun kn => resolvable reg kn.2) (Graph.nodes g) ∧
  g' = Graph.mk (Graph.graph_id g)
         ((fun kn => (kn.1, resolve_node reg kn.2)) <$> Graph.nodes g)
         (Graph.edges g) reg.
Proof.
  unfold Graph.resolve_functions. split.
  - intros Hres.
    assert (Forall (fun kn => resolvable reg kn.2) (Graph.nodes g)) as Hall.
    { destruct (Graph.resolve_nodes reg (Graph.nodes g)) as [res ns'] eqn:Hns.
      injection Hres as -> _.
      revert ns' Hns. induction (Graph.nodes g) as [|[k node] ns IH]; intros ns' Hns.
      - constructor.
      - destruct (resolvable_or_not reg node) as [Hn|Hn].
        + rewrite resolve_nodes_step in Hns by done.
          destruct (Graph.resolve_nodes reg ns) as [res rest'] eqn:Hrest.
          injection Hns as -> <-. constructor; [done|]. by eapply IH.
        + by rewrite resolve_nodes_stop in Hns. }
    split; [done|]. rewrite (resolve_nodes_all _ _ Hall) in Hres. by injection Hres.
  - intros [Hall ->]. by rewrite (resolve_nodes_all _ _ Hall).
Qed.

(** [resolve_functions] succeeds exactly when every node holds a callable
    or the name of a registered tool.  It then replaces each tool name by
    the registered callable and records the registry; identities, display
    names, types, routing and continuation callables, the order of the
    nodes and the edges are kept. *)
Theorem resolve_functions_succeeds_iff (g g' : Graph.t) (reg : option ToolRegistry.t) :
  Graph.resolve_functions g reg = (Return tt, g') ↔
  Forall (fun kn => resolvable reg kn.2) (Graph.nodes g) ∧
  g' = Graph.mk (Graph.graph_id g)
         ((fun kn => (kn.1, resolve_node reg kn.2)) <$> Graph.nodes g)
         (Graph.edges g) reg.
Proof. exact (resolve_functions_returns g g' reg). Qed.

Lemma resolve_functions_succeeds_iff_witness :
  Forall (fun kn => resolvable (Some Examples.registry) kn.2)
         (Graph.nodes Examples.cycle_graph).
Proof.
  exact (proj1 (proj1 (resolve_functions_succeeds_iff Examples.cycle_graph
                         Examples.cycle_graph_resolved (Some Examples.registry)) eq_refl)).
Defined.

(** When the resolution fails, the error is that of the first node, in
    declaration order, that cannot be resolved; the nodes before it stay
    resolved, this node and the nodes after it are left as they were, and
    the registry is recorded all the same. *)
Theorem resolve_functions_first_failure (g : Graph.t) (reg : option ToolRegistry.t)
    (pre post : list (string * Node.t)) (k : string) (node : Node.t) :
  Graph.nodes g = pre ++ (k, node) :: post →
  Forall (fun kn => resolvable reg kn.2) pre →
  ¬ resolvable reg node →
  Graph.resolve_functions g reg
  = (Raise (resolve_error node),
     Graph.mk (Graph.graph_id g)
       (((fun kn => (kn.1, resolve_node reg kn.2)) <$> pre) ++ (k, node) :: post)
       (Graph.edges g) reg).
Proof.
  intros Hns Hpre Hnode. unfold Graph.resolve_functions.
  by rewrite Hns, (resolve_nodes_first_failure _ _ _ _ _ Hpre Hnode).
Qed.

Lemma resolve_functions_first_failure_witness :
  Graph.resolve_functions Examples.missing_graph (Some Examples.registry)
  = (Raise (ValueError "Tool 'absent' not found in registry"),
     Graph.mk "missing" (Graph.nodes Examples.missing_graph) ∅ (Some Examples.registry)).
Proof.
  apply (resolve_functions_first_failure Examples.missing_graph (Some Examples.registry)
           [] [] "a" (Node.mk "a" "A" (FString "absent") STANDARD None None)).
  - reflexivity.
  - constructor.
  - intros (r & [= <-] & H). discriminate H.
Defined.

(** ** Runs and the registries of the engine *)

Lemma resolve_nodes_class reg ns e ns' :
  Graph.resolve_nodes reg ns = (Raise e, ns') → exn_class e = "ValueError".
Proof.
  revert ns'. induction ns as [|[k node] ns IH]; intros ns'; [done|].
  destruct (resolvable_or_not reg node) as [Hn|Hn].
  - rewrite resolve_nodes_step by done.
    destruct (Graph.resolve_nodes reg ns) as [res rest'] eqn:Hrest.
    simpl. intros [= -> <-]. by eapply IH.
  - rewrite resolve_nodes_stop by done. intros [= <- <-].
    unfold resolve_error. by destruct (Node.func node).
Qed.

(** [run_graph] raises in two cases only, both with a [ValueError]: the
    graph is not registered, and then the engine is left as it was; or a
    step reference does not resolve, and then the state created for the
    run stays registered as created.  In every other case it returns the
    state that the run registry holds under the run identity. *)
Theorem run_graph_outcomes (self : WorkflowEngine.t) (graph_id : string)
    (initial_state : gmap string value) (start_node : option string)
    (reg : option ToolRegistry.t) (uuid : string) r self' :
  WorkflowEngine.run_graph self graph_id initial_state start_node reg uuid = (r, self') →
  (WorkflowEngine.graphs self !! graph_id = None ∧
   r = Raise (ValueError ("Graph " +:+ graph_id +:+ " not found")) ∧ self' = self) ∨
  (∃ g g1 e,
     WorkflowEngine.graphs self !! graph_id = Some g ∧
     Graph.resolve_functions g reg = (Raise e, g1) ∧
     r = Raise e ∧ exn_class e = "ValueError" ∧
     WorkflowEngine.get_run_state self' uuid = Some (WorkflowState.new initial_state uuid)) ∨
  (∃ g g1 s,
     WorkflowEngine.graphs self !! graph_id = Some g ∧
     Graph.resolve_functions g reg = (Return tt, g1) ∧
     r = Return s ∧
     WorkflowEngine.get_run_state self' uuid = Some s).
Proof.
  unfold WorkflowEngine.run_graph, WorkflowEngine.run_graph_traced,
    WorkflowEngine.get_run_state.
  destruct (WorkflowEngine.graphs self !! graph_id) as [g|] eqn:Hg.
  - destruct (Graph.resolve_functions g reg) as [[[]|e] g1] eqn:Hres.
    + destruct (execute_catches g1 start_node (WorkflowState.new initial_state uuid))
        as (s & tr & -> & _).
      intros [= <- <-]. right. right. exists g, g1, s. simpl.
      by rewrite lookup_insert_eq.
    + intros [= <- <-]. right. left. exists g, g1, e. simpl.
      rewrite lookup_insert_eq. split_and!; try done.
      unfold Graph.resolve_functions in Hres.
      destruct (Graph.resolve_nodes reg (Graph.nodes g)) as [res ns] eqn:Hns.
      injection Hres as -> _. by eapply resolve_nodes_class.
  - intros [= <- <-]. by left.
Qed.

Lemma run_graph_outcomes_witness :
  WorkflowEngine.graphs Examples.engine !! "nowhere" = None ∧
  (WorkflowEngine.run_graph Examples.engine "nowhere" ∅ None None "run-1").2
  = Examples.engine.
Proof.
  destruct (run_graph_outcomes Examples.engine "nowhere" ∅ None None "run-1" _ _ eq_refl)
    as [(H1 & _ & H2)|[(g & g1 & e & H & _)|(g & g1 & s & H & _)]].
  - split; [exact H1 | reflexivity].
  - exfalso. vm_compute in H. discriminate H.
  - exfalso. vm_compute in H. discriminate H.
Defined.

(** A run touches only its own entries: the states of other runs and the
    other graphs of the engine are the same after [run_graph], however it
    ends; its own graph keeps its identity, its edges and the identities
    and order of its nodes. *)
Theorem run_graph_frame (self : WorkflowEngine.t) (graph_id : string)
    (initial_state : gmap string value) (start_node : option string)
    (reg : option ToolRegistry.t) (uuid : string) r self' :
  WorkflowEngine.run_graph self graph_id initial_state start_node reg uuid = (r, self') →
  (∀ other, other ≠ uuid →
     WorkflowEngine.get_run_state self' other = WorkflowEngine.get_run_state self other) ∧
  (∀ other, other ≠ graph_id →
     WorkflowEngine.graphs self' !! other = WorkflowEngine.graphs self !! other) ∧
  (∀ g, WorkflowEngine.graphs self !! graph_id = Some g →
     ∃ g', WorkflowEngine.graphs self' !! graph_id = Some g' ∧
           Graph.graph_id g' = Graph.graph_id g ∧
           Graph.edges g' = Graph.edges g ∧
           dict_keys (Graph.nodes g') = dict_keys (Graph.nodes g)).
Proof.
  unfold WorkflowEngine.run_graph, WorkflowEngine.run_graph_traced,
    WorkflowEngine.get_run_state.
  destruct (WorkflowEngine.graphs self !! graph_id) as [g|] eqn:Hg.
  - destruct (Graph.resolve_functions g reg) as [res g1] eqn:Hres.
    assert (Graph.graph_id g1 = Graph.graph_id g ∧ Graph.edges g1 = Graph.edges g ∧
            dict_keys (Graph.nodes g1) = dict_keys (Graph.nodes g)) as Hsame.
    { unfold Graph.resolve_functions in Hres.
      destruct (Graph.resolve_nodes reg (Graph.nodes g)) as [res' ns] eqn:Hns.
      injection Hres as _ <-. simpl. split_and!; try done.
      clear Hg. revert ns res' Hns.
      induction (Graph.nodes g) as [|[k node] l IH]; intros ns res' Hns.
      - by injection Hns as _ <-.
      - destruct (resolvable_or_not reg node) as [Hn|Hn].
        + rewrite resolve_nodes_step in Hns by done.
          destruct (Graph.resolve_nodes reg l) as [res2 rest'] eqn:Hrest.
          injection Hns as _ <-. unfold dict_keys in *. simpl. f_equal. by eapply IH.
        + rewrite resolve_nodes_stop in Hns by done. by injection Hns as _ <-. }
    assert (∀ (rs : gmap string WorkflowState.t) v other, other ≠ uuid →
              <[uuid := v]> rs !! other = rs !! other) as Hother.
    { intros rs v other Hne. by rewrite lookup_insert_ne. }
    destruct res as [[]|e].
    + destruct (WorkflowEngine.execute g1 start_node _) as [[[[]|e] s] tr];
        intros [= <- <-]; simpl; (split_and!;
          [ intros other Hne; by rewrite !Hother
          | intros other Hne; by rewrite lookup_insert_ne
          | intros g0 [= <-]; exists g1; by rewrite lookup_insert_eq ]).
    + intros [= <- <-]. simpl. split_and!.
      * intros other Hne. by rewrite Hother.
      * intros other Hne. by rewrite lookup_insert_ne.
      * intros g0 [= <-]. exists g1. by rewrite lookup_insert_eq.
  - intros [= <- <-]. split_and!; try done.
Qed.

Lemma run_graph_frame_witness :
  WorkflowEngine.graphs
    (WorkflowEngine.run_graph Examples.engine "boom" ∅ None None "run-1").2 !! "loop"
  = Some Examples.loop_graph.
Proof.
  destruct (run_graph_frame Examples.engine "boom" ∅ None None "run-1" _ _
              (surjective_pairing _)) as (_ & Hgraphs & _).
  rewrite (Hgraphs "loop" ltac:(discriminate)). reflexivity.
Defined.

Lemma dict_get_fmap {V W} (f : V → W) (k : string) (d : list (string * V)) :
  dict_get k ((fun kv => (kv.1, f kv.2)) <$> d) = f <$> dict_get k d.
Proof.
  induction d as [|[k' v] d IH]; [done|]. simpl.
  destruct (String.eqb k k'); [done | exact IH].
Qed.

(** The graph after a successful resolution, seen through lookups. *)
Lemma resolved_graph_lookup g g' reg :
  Graph.resolve_functions g reg = (Return tt, g') →
  Graph.edges g' = Graph.edges g ∧
  (∀ k, dict_get k (Graph.nodes g') = resolve_node reg <$> dict_get k (Graph.nodes g)) ∧
  (∀ k, dict_mem k (Graph.nodes g') = dict_mem k (Graph.nodes g)) ∧
  (∀ start_node, entry_node g' start_node = entry_node g start_node).
Proof.
  intros [_ ->]%resolve_functions_returns. simpl. split_and!; [done| | |].
  - intros k. apply dict_get_fmap.
  - intros k. unfold dict_mem. rewrite dict_get_fmap. by destruct (dict_get k _).
  - intros start_node. unfold entry_node. destruct (id_truthy start_node); [done|].
    apply get_start_node_ext; [|done]. simpl. unfold dict_keys.
    rewrite <- list_fmap_compose. by apply list_fmap_ext.
Qed.

Lemma execute_entry g start_node s0 :
  WorkflowEngine.execute g start_node s0
  = if negb (id_truthy (entry_node g start_node)) then
      (set_error "No start node found" ;;; set_completed) s0
    else
      (log "engine" ("Starting workflow from node: "
                     +:+ default "" (entry_node g start_node)) VNone ;;;
       WorkflowEngine.try_block g (entry_node g start_node)) s0.
Proof. unfold WorkflowEngine.execute, entry_node. by destruct (negb _). Qed.

(** A run without usable start node (in particular: no explicit start node
    and a graph without nodes) invokes nothing and is returned completed,
    with the error "No start node found" and an empty log. *)
Theorem run_graph_no_start_node (self : WorkflowEngine.t) (graph_id : string)
    (g g' : Graph.t) (initial_state : gmap string value) (start_node : option string)
    (reg : option ToolRegistry.t) (uuid : string) :
  WorkflowEngine.graphs self !! graph_id = Some g →
  Graph.resolve_functions g reg = (Return tt, g') →
  id_truthy (entry_node g start_node) = false →
  ∃ self',
    WorkflowEngine.run_graph self graph_id initial_state start_node reg uuid
    = (Return (WorkflowState.mk initial_state None [] uuid true (Some "No start node found")),
       self').
Proof.
  intros Hg Hres Hentry.
  destruct (resolved_graph_lookup _ _ _ Hres) as (_ & _ & _ & Hsame).
  unfold WorkflowEngine.run_graph.
  erewrite run_graph_traced_resolved; [by eauto | done | done |].
  by rewrite execute_entry, Hsame, Hentry.
Qed.

Lemma run_graph_no_start_node_witness :
  ∃ self',
    WorkflowEngine.run_graph
      (WorkflowEngine.mk {[ "empty" := Graph.new "empty" ]} ∅) "empty" ∅ (Some "") None "run-1"
    = (Return (WorkflowState.mk ∅ None [] "run-1" true (Some "No start node found")), self').
Proof.
  apply (run_graph_no_start_node _ "empty" (Graph.new "empty") (Graph.new "empty")).
  - reflexivity.
  - reflexivity.
  - reflexivity.
Defined.

Lemma while_loop_enter (g : Graph.t) (cur : string) (s : WorkflowState.t) :
  cur ≠ "" →
  WorkflowEngine.while_loop max_iterations g (Some cur) ∅ 0 s
  = (r <- WorkflowEngine.loop_body g cur ∅ ;;
     match r with
     | (Break, _, _) => ret 1
     | (Next, next, visited) => WorkflowEngine.while_loop 999 g next visited 1
     end) s.
Proof.
  intros Hne. change max_iterations with (S 999) at 1. rewrite while_loop_S.
  simpl. by apply String.eqb_neq in Hne as ->.
Qed.

Lemma execute_at (g : Graph.t) (nid : string) (s0 : WorkflowState.t) :
  nid ≠ "" →
  WorkflowEngine.execute g (Some nid) s0
  = (log "engine" ("Starting workflow from node: " +:+ nid) VNone ;;;
     WorkflowEngine.try_block g (Some nid)) s0.
Proof.
  intros Hne. rewrite execute_entry. unfold entry_node, id_truthy.
  apply String.eqb_neq in Hne. rewrite Hne. cbn [negb]. by rewrite Hne.
Qed.

(** A run entered at an explicit start node that is not a node of the graph
    invokes nothing and is returned with the error "Node ... not found in
    graph"; the engine leaves the completion flag unset. *)
Theorem run_graph_unknown_start_node (self : WorkflowEngine.t) (graph_id : string)
    (g g' : Graph.t) (initial_state : gmap string value) (start_node : string)
    (reg : option ToolRegistry.t) (uuid : string) :
  WorkflowEngine.graphs self !! graph_id = Some g →
  Graph.resolve_functions g reg = (Return tt, g') →
  start_node ≠ "" →
  dict_mem start_node (Graph.nodes g) = false →
  ∃ self',
    WorkflowEngine.run_graph self graph_id initial_state (Some start_node) reg uuid
    = (Return (WorkflowState.mk initial_state None
                 [LogEntry.mk "engine" ("Starting workflow from node: " +:+ start_node) VNone]
                 uuid false (Some ("Node " +:+ start_node +:+ " not found in graph"))),
       self').
Proof.
  intros Hg Hres Hne Hmem.
  destruct (resolved_graph_lookup _ _ _ Hres) as (_ & _ & Hsame & _).
  rewrite <- Hsame in Hmem. unfold dict_mem in Hmem.
  destruct (dict_get start_node (Graph.nodes g')) eqn:Hget; [done|].
  unfold WorkflowEngine.run_graph.
  erewrite run_graph_traced_resolved; [by eauto | done | done |].
  rewrite execute_at by done.
  unfold bind at 1. unfold log at 1, mutate. rewrite try_block_unfold.
  unfold WorkflowEngine.try_body. unfold bind at 1.
  rewrite while_loop_enter by done.
  unfold bind at 1. unfold WorkflowEngine.loop_body. rewrite Hget.
  reflexivity.
Qed.

Lemma run_graph_unknown_start_node_witness :
  ∃ self',
    WorkflowEngine.run_graph Examples.engine "single" ∅ (Some "zz") None "run-1"
    = (Return (WorkflowState.mk ∅ None
                 [LogEntry.mk "engine" "Starting workflow from node: zz" VNone]
                 "run-1" false (Some "Node zz not found in graph")),
       self').
Proof.
  apply (run_graph_unknown_start_node Examples.engine "single" Examples.single_graph
           (Graph.mk "single" (Graph.nodes Examples.single_graph) ∅ None)
           ∅ "zz" None "run-1").
  - reflexivity.
  - reflexivity.
  - discriminate.
  - reflexivity.
Defined.

(** ** Graphs in which every node has a successor *)

Lemma loop_body_no_natural_end g cur vis s :
  all_have_successor g →
  Forall no_natural_end (WorkflowEngine.loop_body g cur vis s).2.
Proof.
  intros Hg. unfold no_natural_end, logs_completion.
  destruct (dict_get cur (Graph.nodes g)) as [node|] eqn:Hnode.
  - destruct (Hg _ _ Hnode) as (nx & Hnx & Hne). apply String.eqb_neq in Hne.
    unfold WorkflowEngine.loop_body. rewrite Hnode.
    unfold Graph.get_next_node. rewrite Hnx.
    run_body.
    all: try (exfalso; rewrite ?Hne in *; simpl in *; congruence).
    all: try (repeat constructor; simpl; discriminate).
    all: exfalso; repeat match goal with
                  | H : context [String.eqb ?a ?b] |- _ => destruct (String.eqb a b)
                  end; simpl in *; congruence.
  - unfold WorkflowEngine.loop_body. rewrite Hnode. repeat constructor; simpl; discriminate.
Qed.

Lemma while_loop_no_natural_end (fuel : nat) g cur vis (iteration : nat) s :
  all_have_successor g →
  Forall no_natural_end (WorkflowEngine.while_loop fuel g cur vis iteration s).2.
Proof.
  intros Hg. revert cur vis iteration s.
  induction fuel as [|fuel IH]; intros cur vis it s.
  - cbn [WorkflowEngine.while_loop]. destruct (_ && _); constructor.
  - rewrite while_loop_S. destruct (_ && _); [|constructor]. unfold bind.
    pose proof (loop_body_no_natural_end g (default "" cur) vis s Hg) as Hbody.
    destruct (WorkflowEngine.loop_body g (default "" cur) vis s)
      as [[[[[[] next] vis']|e] s1] tr1]; simpl in Hbody; [| |done].
    + specialize (IH next vis' (S it) s1).
      destruct (WorkflowEngine.while_loop fuel g next vis' (S it) s1) as [[r2 s2] tr2].
      by apply Forall_app.
    + unfold ret. simpl. by rewrite app_nil_r.
Qed.

Lemma no_natural_end_completes_with_error ev : no_natural_end ev → completes_with_error ev.
Proof. intros [H1 H2]. split; [done|]. by intros ?. Qed.

Lemma execute_completes_with_error g start_node s0 :
  all_have_successor g →
  Forall completes_with_error (WorkflowEngine.execute g start_node s0).2.
Proof.
  intros Hg. unfold WorkflowEngine.execute. destruct (negb _).
  { repeat constructor; simpl; by intros [=]. }
  unfold bind at 1. unfold log at 1, mutate. rewrite try_block_unfold.
  unfold WorkflowEngine.try_body, bind.
  pose proof (while_loop_no_natural_end max_iterations g
    (if id_truthy start_node then start_node else Graph.get_start_node g) ∅ 0
    (WorkflowState.log "engine"
       ("Starting workflow from node: "
        +:+ default "" (if id_truthy start_node then start_node else Graph.get_start_node g))
       VNone s0) Hg) as Hloop.
  destruct (WorkflowEngine.while_loop _ _ _ _ _ _) as [[[it|e] sW] trW]; cbn [snd] in Hloop.
  all: assert (Forall completes_with_error trW) as HtrW
    by (eapply Forall_impl; [exact Hloop | apply no_natural_end_completes_with_error]).
  - destruct (max_iterations <=? it)%nat;
      unfold set_error, set_completed, mutate, ret; simpl;
      (constructor; [split; simpl; by intros [=]|]);
      (apply Forall_app; split; [done|]);
      repeat constructor; simpl; by intros [=].
  - simpl. constructor; [split; simpl; by intros [=]|].
    apply Forall_app; split; [done|].
    repeat constructor; simpl; by intros [=].
Qed.

Lemma run_without_natural_end (self : WorkflowEngine.t)
    (graph_id : string) (g g' : Graph.t) (initial_state : gmap string value)
    (start_node : option string) (reg : option ToolRegistry.t) (uuid : string) :
  WorkflowEngine.graphs self !! graph_id = Some g →
  Graph.resolve_functions g reg = (Return tt, g') →
  all_have_successor g →
  ∃ s tr self',
    WorkflowEngine.run_graph_traced self graph_id initial_state start_node reg uuid
    = (Return (s, tr), self') ∧
    Forall completes_with_error tr.
Proof.
  intros Hg Hres Hsucc.
  assert (all_have_successor g') as Hsucc'.
  { destruct (resolved_graph_lookup _ _ _ Hres) as (Hed & Hget & _).
    intros nid node'. rewrite Hget, Hed.
    destruct (dict_get nid (Graph.nodes g)) as [node|] eqn:Hnode; [|done].
    intros _. by eapply Hsucc. }
  pose proof (execute_completes_with_error g' start_node
                (WorkflowState.new initial_state uuid) Hsucc') as Hall.
  destruct (execute_catches g' start_node (WorkflowState.new initial_state uuid))
    as (s & tr & Hexec & _).
  rewrite Hexec in Hall.
  pose proof (run_graph_traced_resolved _ _ _ _ _ _ _ _ _ _ Hg Hres Hexec) as Hrun.
  by eauto.
Qed.

(** In a graph in which every node has a default successor, a run has no
    natural end: the engine never logs "Workflow completed", and whenever
    it sets the completion flag it has set the error field just before
    (the iteration cap, an exception, or no start node).  A run that ends
    because a loop node stops the loop is returned without the flag. *)
Theorem no_successor_free_run_completes_with_error (self : WorkflowEngine.t)
    (graph_id : string) (g g' : Graph.t) (initial_state : gmap string value)
    (start_node : option string) (reg : option ToolRegistry.t) (uuid : string) :
  WorkflowEngine.graphs self !! graph_id = Some g →
  Graph.resolve_functions g reg = (Return tt, g') →
  all_have_successor g →
  ∃ s tr self',
    WorkflowEngine.run_graph_traced self graph_id initial_state start_node reg uuid
    = (Return (s, tr), self') ∧
    Forall completes_with_error tr.
Proof.
  exact (run_without_natural_end self graph_id g g' initial_state start_node reg uuid).
Qed.

Lemma cycle_graph_all_have_successor : all_have_successor Examples.cycle_graph.
Proof.
  intros nid node. simpl.
  destruct (String.eqb nid "a") eqn:Ea; [|destruct (String.eqb nid "b") eqn:Eb; [|done]].
  - apply String.eqb_eq in Ea as ->. intros _. exists "b". split; [reflexivity | discriminate].
  - apply String.eqb_eq in Eb as ->. intros _. exists "a". split; [reflexivity | discriminate].
Qed.

Lemma no_successor_free_run_completes_with_error_witness :
  ∃ s tr self',
    WorkflowEngine.run_graph_traced Examples.engine "cycle" ∅ None
      (Some Examples.registry) "run-1" = (Return (s, tr), self') ∧
    Forall completes_with_error tr.
Proof.
  apply (no_successor_free_run_completes_with_error Examples.engine "cycle"
           Examples.cycle_graph Examples.cycle_graph_resolved).
  - reflexivity.
  - reflexivity.
  - exact cycle_graph_all_have_successor.
Defined.
(** ** Routing callables that are not callable *)





(** ** Runs along a chain of default edges *)

Lemma entered_app tr1 tr2 : entered (tr1 ++ tr2) = entered tr1 ++ entered tr2.
Proof.
  induction tr1 as [|[o s] tr1 IH]; [done|]. simpl.
  destruct o; simpl; by rewrite IH.
Qed.

(** One iteration at a plain node: its step is the one call, and the next
    node is the default successor. *)
Lemma loop_body_plain g cur vis s :
  plain_node g cur →
  ∃ fl vis' s' tr,
    WorkflowEngine.loop_body g cur vis s = (Return (fl, Graph.edges g !! cur, vis'), s', tr) ∧
    entered tr = [cur] ∧
    count_step_calls tr = 1 ∧
    Forall (fun ev => ¬ sets_error ev.1) tr ∧
    (id_truthy (Graph.edges g !! cur) = true → fl = Next) ∧
    (id_truthy (Graph.edges g !! cur) = false →
       fl = Break ∧ WorkflowState.completed s' = true ∧
       last (WorkflowState.execution_log s')
       = Some (LogEntry.mk "engine" "Workflow completed" VNone)).
Proof.
  intros (Hne & node & f & Hnode & Hrouted & Hfunc & Htotal).
  destruct (Htotal (state_at_step node cur s)) as (result & s1 & Hstep).
  unfold state_at_step in Hstep.
  assert (match Node.node_type node, Node.loop_condition_func node with
          | LOOP, Some _ => False | _, _ => True end) as Hloop.
  { destruct (Node.node_type node) eqn:Hty, (Node.loop_condition_func node) eqn:Hlf;
      try done. apply Hrouted. left. by eauto. }
  assert (match Node.node_type node, Node.condition_func node with
          | CONDITIONAL, Some _ => False | _, _ => True end) as Hcond.
  { destruct (Node.node_type node) eqn:Hty, (Node.condition_func node) eqn:Hcf;
      try done. apply Hrouted. right. by eauto. }
  unfold WorkflowEngine.loop_body. rewrite Hnode, Hfunc.
  unfold bind, call_func, call, set_current_node, log, mutate, get_state, ret,
    set_completed, Graph.get_next_node. simpl. rewrite Hstep.
  destruct (Node.node_type node), (Node.loop_condition_func node),
    (Node.condition_func node); try done;
    destruct (truthy result); simpl;
    destruct (id_truthy (Graph.edges g !! cur)); simpl;
    (do 4 eexists; split; [reflexivity|]; simpl;
     split_and!; try done;
     try (repeat constructor; by intros []);
     try (intros _; split_and!; try done; by rewrite last_snoc)).
Qed.

Lemma while_loop_chain (fuel : nat) g path vis (iteration : nat) s :
  chain g path →
  (length path ≤ fuel)%nat →
  (iteration + length path ≤ max_iterations)%nat →
  ∃ s' tr,
    WorkflowEngine.while_loop fuel g (head path) vis iteration s
    = (Return (iteration + length path), s', tr) ∧
    entered tr = path ∧
    count_step_calls tr = length path ∧
    Forall (fun ev => ¬ sets_error ev.1) tr ∧
    WorkflowState.completed s' = true ∧
    last (WorkflowState.execution_log s')
    = Some (LogEntry.mk "engine" "Workflow completed" VNone).
Proof.
  revert fuel vis iteration s.
  induction path as [|nid rest IH]; intros fuel vis it s Hchain Hfuel Hit; [done|].
  destruct Hchain as [Hplain Hrest]. simpl in Hfuel, Hit.
  destruct fuel as [|fuel]; [lia|]. rewrite while_loop_S.
  change (head (nid :: rest)) with (Some nid).
  assert (id_truthy (Some nid) = true) as ->.
  { destruct Hplain as [Hne _]. simpl. by apply String.eqb_neq in Hne as ->. }
  assert ((it <? max_iterations)%nat = true) as -> by (apply Nat.ltb_lt; lia).
  cbn [andb]. change (default "" (Some nid)) with nid. unfold bind.
  destruct (loop_body_plain g nid vis s Hplain)
    as (fl & vis' & s1 & tr1 & -> & Hent & Hcount & Herr & Hnext & Hend).
  destruct rest as [|next rest'].
  - rewrite Hrest in *. destruct (Hend eq_refl) as (-> & Hdone & Hlast).
    unfold ret. exists s1, tr1. rewrite app_nil_r.
    replace (it + length [nid])%nat with (S it) by (simpl; lia).
    by split_and!.
  - destruct Hrest as [Hedge Hrest]. rewrite Hedge in *.
    assert (id_truthy (Some next) = true) as Htruthy.
    { destruct Hrest as [[Hne _] _]. simpl. by apply String.eqb_neq in Hne as ->. }
    rewrite (Hnext Htruthy).
    destruct (IH fuel vis' (S it) s1 Hrest) as (s2 & tr2 & Hloop & Hent2 & Hcount2 & Herr2 & Hdone & Hlast).
    { simpl in *. lia. }
    { simpl in *. lia. }
    change (head (next :: rest')) with (Some next) in Hloop. rewrite Hloop.
    exists s2, (tr1 ++ tr2).
    replace (it + length (nid :: next :: rest'))%nat
      with (S it + length (next :: rest'))%nat by (simpl; lia).
    split_and!; try done.
    + by rewrite entered_app, Hent, Hent2.
    + rewrite count_step_calls_app, Hcount, Hcount2. done.
    + by apply Forall_app.
Qed.

(** A run entered at the head of a chain of fewer than 1000 plain nodes
    enters the nodes of the chain in order, each once, and has its natural
    end: the state is returned completed, with "Workflow completed" as the
    last log entry, and the engine has not set the error field. *)
Theorem run_graph_follows_chain (self : WorkflowEngine.t) (graph_id : string)
    (g g' : Graph.t) (initial_state : gmap string value) (start_node : option string)
    (reg : option ToolRegistry.t) (uuid : string) (path : list string) :
  WorkflowEngine.graphs self !! graph_id = Some g →
  Graph.resolve_functions g reg = (Return tt, g') →
  chain g' path →
  entry_node g' start_node = head path →
  (length path < 1000)%nat →
  ∃ s tr self',
    WorkflowEngine.run_graph_traced self graph_id initial_state start_node reg uuid
    = (Return (s, tr), self') ∧
    entered tr = path ∧
    count_step_calls tr = length path ∧
    Forall (fun ev => ¬ sets_error ev.1) tr ∧
    WorkflowState.completed s = true ∧
    last (WorkflowState.execution_log s)
    = Some (LogEntry.mk "engine" "Workflow completed" VNone).
Proof.
  intros Hg Hres Hchain Hentry Hlen.
  assert (id_truthy (head path) = true) as Htruthy.
  { destruct path as [|nid rest]; [done|]. destruct Hchain as [[Hne _] _].
    simpl. by apply String.eqb_neq in Hne as ->. }
  destruct (while_loop_chain max_iterations g' path ∅ 0
              (WorkflowState.log "engine"
                 ("Starting workflow from node: " +:+ default "" (head path)) VNone
                 (WorkflowState.new initial_state uuid)) Hchain)
    as (s & tr & Hloop & Hent & Hcount & Herr & Hdone & Hlast).
  { unfold max_iterations. lia. }
  { unfold max_iterations. lia. }
  assert (WorkflowEngine.execute g' start_node (WorkflowState.new initial_state uuid)
          = (Return tt, s,
             (OpLog (LogEntry.mk "engine"
                       ("Starting workflow from node: " +:+ default "" (head path)) VNone),
              WorkflowState.log "engine"
                ("Starting workflow from node: " +:+ default "" (head path)) VNone
                (WorkflowState.new initial_state uuid)) :: tr)) as Hexec.
  { rewrite execute_entry, Hentry, Htruthy. cbn [negb].
    unfold bind at 1. unfold log at 1, mutate. rewrite try_block_unfold.
    unfold WorkflowEngine.try_body. unfold bind at 1. rewrite Hloop.
    assert ((max_iterations <=? 0 + length path)%nat = false) as ->.
    { apply Nat.leb_gt. unfold max_iterations. lia. }
    unfold ret. by rewrite app_nil_r. }
  pose proof (run_graph_traced_resolved _ _ _ _ _ _ _ _ _ _ Hg Hres Hexec) as Hrun.
  do 3 eexists. split; [exact Hrun|]. split_and!; try done.
  constructor; [by intros []|done].
Qed.

Lemma run_graph_follows_chain_witness :
  ∃ s tr self',
    WorkflowEngine.run_graph_traced Examples.engine "single" ∅ None None "run-1"
    = (Return (s, tr), self') ∧
    entered tr = ["a"] ∧
    WorkflowState.completed s = true.
Proof.
  destruct (run_graph_follows_chain Examples.engine "single" Examples.single_graph
              (Graph.mk "single" (Graph.nodes Examples.single_graph) ∅ None)
              ∅ None None "run-1" ["a"]) as (s & tr & self' & Hrun & Hent & _ & _ & Hdone & _).
  - reflexivity.
  - reflexivity.
  - split; [|reflexivity]. split; [discriminate|].
    exists (Node.mk "a" "A" (FCallable Examples.noop) STANDARD None None), Examples.noop.
    split_and!; [reflexivity | | reflexivity |].
    + intros [[Hty _]|[Hty _]]; discriminate.
    + intros st. by do 2 eexists.
  - reflexivity.
  - simpl. lia.
  - exists s, tr, self'. split; [exact Hrun|]. split; [exact Hent | exact Hdone].
Defined.

(** ** The inferred start node *)

(** The inferred start node is a declared node, and there is none only for
    a graph without nodes.  If it has an incoming edge, then so has every
    node of the graph. *)
Theorem get_start_node_declared (g : Graph.t) :
  (Graph.get_start_node g = None ↔ Graph.nodes g = []) ∧
  (∀ nid, Graph.get_start_node g = Some nid →
     nid ∈ dict_keys (Graph.nodes g) ∧
     (has_incoming g nid → Forall (has_incoming g) (dict_keys (Graph.nodes g)))).
Proof.
  unfold Graph.get_start_node. split.
  - destruct (Graph.nodes g) as [|[k n] ns]; [done|].
    split; [|done]. by destruct (filter _ _).
  - intros nid Hstart. split; [by apply dict_mem_keys, get_start_node_is_node|].
    destruct (Graph.nodes g) as [|[k n] ns] eqn:Hns; [done|].
    destruct (filter _ _) as [|x l] eqn:Hf.
    + intros _. apply Forall_forall. intros y Hy.
      destruct (decide (y ∈ (map_img (Graph.edges g) : gset string))) as [Hin|Hout].
      * by apply target_nodes_spec.
      * assert (y ∈ filter (fun nid => nid ∉ (map_img (Graph.edges g) : gset string))
                       (dict_keys ((k, n) :: ns))) as Hyf by (by apply list_elem_of_filter).
        rewrite Hf in Hyf. by apply elem_of_nil in Hyf.
    + injection Hstart as <-. intros Hinc. exfalso.
      assert (x ∈ x :: l) as Hx by left. rewrite <- Hf in Hx.
      apply list_elem_of_filter in Hx as [Hx _]. apply Hx. by apply target_nodes_spec.
Qed.

Lemma get_start_node_declared_witness :
  "a" ∈ dict_keys (Graph.nodes Examples.cycle_graph).
Proof.
  exact (proj1 (proj2 (get_start_node_declared Examples.cycle_graph) "a" eq_refl)).
Defined.

(** ** The tool registry *)

(** A registered tool is found again under its name ([has_tool] is true and
    [get_tool] returns it), the other names are unaffected, and a step
    reference with that name resolves to the tool.  The decorator without
    a name, or with the empty name, registers under the function's own
    name.  [get_tool] raises exactly for the names [has_tool] denies. *)
Theorem register_then_lookup (self : ToolRegistry.t) (name : string) (func : callable) :
  ToolRegistry.get_tool (ToolRegistry.register self name func) name = Return func ∧
  ToolRegistry.has_tool (ToolRegistry.register self name func) name = true ∧
  (∀ other, other ≠ name →
     ToolRegistry.get_tool (ToolRegistry.register self name func) other
     = ToolRegistry.get_tool self other ∧
     ToolRegistry.has_tool (ToolRegistry.register self name func) other
     = ToolRegistry.has_tool self other) ∧
  (∀ node, Node.func node = FString name →
     resolve_node (Some (ToolRegistry.register self name func)) node
     = Node.set_func (FCallable func) node) ∧
  (∀ other, ToolRegistry.has_tool self other = false ↔
            ToolRegistry.get_tool self other
            = Raise (ValueError ("Tool '" +:+ other +:+ "' not found"))) ∧
  ToolRegistry.register_decorator self None name func = ToolRegistry.register self name func ∧
  ToolRegistry.register_decorator self (Some "") name func
  = ToolRegistry.register self name func.
Proof.
  unfold ToolRegistry.get_tool, ToolRegistry.has_tool, ToolRegistry.register. simpl.
  split_and!; try done.
  - by rewrite lookup_insert_eq.
  - by rewrite lookup_insert_eq.
  - intros other Hne. by rewrite lookup_insert_ne.
  - intros node Hf. unfold resolve_node. rewrite Hf. simpl. by rewrite lookup_insert_eq.
  - intros other. by destruct (ToolRegistry.tools self !! other).
Qed.

Lemma register_then_lookup_witness :
  ToolRegistry.get_tool (ToolRegistry.register Examples.registry "extra" Examples.boom) "noop"
  = Return Examples.noop.
Proof.
  rewrite (proj1 (proj1 (proj2 (proj2 (register_then_lookup Examples.registry "extra"
             Examples.boom))) "noop" ltac:(discriminate))).
  reflexivity.
Defined.

(** ** The data mapping of a state *)



(** ** The code review workflow *)



Lemma create_graph_registers_witness :
  ∃ self' g,
    WorkflowEngine.create_graph WorkflowEngine.new "g"
      [("a", Workflows.tool_node "A" "noop"); ("b", Workflows.tool_node "B" "noop")]
      [("a", "b")]
    = (Return "g", self') ∧
    WorkflowEngine.graphs self' !! "g" = Some g ∧
    dict_keys (Graph.nodes g) = ["a"; "b"] ∧
    edges_valid g.
Proof.
  eexists. 
  destruct (create_graph_registers WorkflowEngine.new _ "g"
              [("a", Workflows.tool_node "A" "noop"); ("b", Workflows.tool_node "B" "noop")]
              [("a", "b")] "g" eq_refl)
    as (_ & _ & _ & g & Hg & _ & _ & Hkeys & _ & Hvalid & _).
  { simpl. repeat constructor; set_solver. }
  exists g. split; [reflexivity|]. split; [exact Hg|]. split; [exact Hkeys | exact Hvalid].
Defined.

Lemma create_graph_accepts_witness :
  ∃ e,
    WorkflowEngine.create_graph WorkflowEngine.new "g"
      [("a", NodeDef.mk None None None None None)] []
    = (Raise e, WorkflowEngine.new) ∧
    exn_class e = "ValueError".
Proof.
  destruct (proj2 (create_graph_accepts WorkflowEngine.new "g"
                     [("a", NodeDef.mk None None None None None)] []) _ _ eq_refl)
    as [[=]|(e & [= <-] & Hclass & _)].
  eexists. split; [reflexivity | exact Hclass].
Defined.



(** ** The empty string as explicit start node *)

Lemma bind_mutate_head {B} (o : op) (f : WorkflowState.t → WorkflowState.t)
    (k : unit → M B) (s : WorkflowState.t) :
  ∃ r s' tr', bind (mutate o f) k s = (r, s', (o, f s) :: tr').
Proof.
  unfold bind, mutate. destruct (k tt (f s)) as [[r s'] tr2]. by do 3 eexists.
Qed.

Lemma loop_body_enters (g : Graph.t) (cur : string) (visited_nodes : gset string)
    (s : WorkflowState.t) :
  dict_mem cur (Graph.nodes g) = true →
  ∃ r s' tr',
    WorkflowEngine.loop_body g cur visited_nodes s
    = (r, s', (OpSetCurrentNode cur, WorkflowState.set_current_node cur s) :: tr').
Proof.
  unfold dict_mem, WorkflowEngine.loop_body.
  destruct (dict_get cur (Graph.nodes g)) as [node|]; [intros _|done].
  unfold set_current_node. apply bind_mutate_head.
Qed.

Lemma try_block_enters (g : Graph.t) (nid : string) (s : WorkflowState.t) :
  nid ≠ "" →
  dict_mem nid (Graph.nodes g) = true →
  ∃ s' tr',
    WorkflowEngine.try_block g (Some nid) s
    = (Return tt, s', (OpSetCurrentNode nid, WorkflowState.set_current_node nid s) :: tr').
Proof.
  intros Hne Hmem. rewrite try_block_unfold. unfold WorkflowEngine.try_body.
  unfold bind at 1. rewrite (while_loop_enter _ _ _ Hne). unfold bind at 1.
  destruct (loop_body_enters g nid ∅ s Hmem) as (r & s1 & tr1 & ->).
  destruct r as [[[[] next] visited]|e].
  - destruct (WorkflowEngine.while_loop 999 g next visited 1 s1) as [[[n|e] s2] tr2].
    + destruct (max_iterations <=? n)%nat; by do 2 eexists.
    + by do 2 eexists.
  - unfold ret. change (max_iterations <=? 1)%nat with false. by do 2 eexists.
  - by do 2 eexists.
Qed.

(** C10.  For a registered graph, the run started with the empty string as
    explicit start node is the run started without a start node: the calls
    have the same outcome, the same events and leave the same engine.  When
    the step references of the graph resolve, the run is entered at the node
    [get_start_node] infers: its first events are the log entry that names
    that node and the assignment of [current_node] the loop makes once it
    has found the node in the graph, not the error "Node  not found in
    graph"; and when [get_start_node] gives no usable node, the run is
    returned with the error "No start node found". *)
Theorem run_graph_empty_start_node (self : WorkflowEngine.t) (graph_id : string)
    (g : Graph.t) (initial_state : gmap string value) (reg : option ToolRegistry.t)
    (uuid : string) :
  WorkflowEngine.graphs self !! graph_id = Some g →
  WorkflowEngine.run_graph_traced self graph_id initial_state (Some "") reg uuid
  = WorkflowEngine.run_graph_traced self graph_id initial_state None reg uuid ∧
  WorkflowEngine.run_graph self graph_id initial_state (Some "") reg uuid
  = WorkflowEngine.run_graph self graph_id initial_state None reg uuid ∧
  ∀ g', Graph.resolve_functions g reg = (Return tt, g') →
    (∀ nid, Graph.get_start_node g = Some nid → nid ≠ "" →
       ∃ s tr self',
         WorkflowEngine.run_graph_traced self graph_id initial_state (Some "") reg uuid
         = (Return (s, started_at nid (WorkflowState.new initial_state uuid) ++ tr), self') ∧
         WorkflowEngine.run_graph self graph_id initial_state (Some "") reg uuid
         = (Return s, self')) ∧
    (id_truthy (Graph.get_start_node g) = false →
       ∃ self',
         WorkflowEngine.run_graph self graph_id initial_state (Some "") reg uuid
         = (Return (WorkflowState.mk initial_state None [] uuid true
                      (Some "No start node found")), self')).
Proof.
  intros Hg. split; [apply run_graph_traced_empty_start|].
  split; [unfold WorkflowEngine.run_graph; by rewrite run_graph_traced_empty_start|].
  intros g' Hres.
  destruct (resolved_graph_lookup _ _ _ Hres) as (_ & _ & Hmem & Hsame).
  pose proof (Hsame None) as Hentry.
  change (entry_node g' (Some "") = Graph.get_start_node g) in Hentry.
  split.
  - intros nid Hstart Hne. rewrite Hstart in Hentry.
    assert (dict_mem nid (Graph.nodes g') = true) as Hin.
    { rewrite Hmem. by apply get_start_node_is_node. }
    destruct (try_block_enters g' nid
                (WorkflowState.log "engine" ("Starting workflow from node: " +:+ nid) VNone
                   (WorkflowState.new initial_state uuid)) Hne Hin) as (s & tr & Htry).
    assert (WorkflowEngine.execute g' (Some "") (WorkflowState.new initial_state uuid)
            = (Return tt, s, started_at nid (WorkflowState.new initial_state uuid) ++ tr))
      as Hexec.
    { rewrite execute_entry, Hentry. unfold id_truthy.
      apply String.eqb_neq in Hne. rewrite Hne. cbn [negb].
      change (default "" (Some nid)) with nid.
      unfold bind at 1. unfold log at 1, mutate. rewrite Htry. reflexivity. }
    pose proof (run_graph_traced_resolved _ _ _ _ _ _ _ _ _ _ Hg Hres Hexec) as Hrun.
    do 3 eexists. split; [exact Hrun|].
    unfold WorkflowEngine.run_graph. rewrite Hrun. reflexivity.
  - intros Hnone. rewrite <- Hentry in Hnone.
    unfold WorkflowEngine.run_graph.
    erewrite run_graph_traced_resolved; [eexists; reflexivity | exact Hg | exact Hres |].
    rewrite execute_entry, Hnone. reflexivity.
Qed.

(** The run of the two-node cycle, whose inferred start node is [a],
    started with the empty string: it is entered at [a]. *)
Lemma run_graph_empty_start_node_witness :
  ∃ s tr self',
    WorkflowEngine.run_graph_traced Examples.engine "cycle" ∅ (Some "")
      (Some Examples.registry) "run-1"
    = (Return (s, started_at "a" (WorkflowState.new ∅ "run-1") ++ tr), self') ∧
    WorkflowEngine.run_graph Examples.engine "cycle" ∅ (Some "")
      (Some Examples.registry) "run-1"
    = (Return s, self').
Proof.
  destruct (run_graph_empty_start_node Examples.engine "cycle" Examples.cycle_graph ∅
              (Some Examples.registry) "run-1" eq_refl) as (_ & _ & H).
  destruct (H Examples.cycle_graph_resolved eq_refl) as [H1 _].
  exact (H1 "a" eq_refl ltac:(discriminate)).
Defined.
